(** * Verification of the training and evaluation scripts

    Shallow embedding of [scripts/training.py] and [scripts/evaluation.py]:
    the region-weighted loss, the training loop with its
    checkpoint-on-improvement rule, the metric report, permutation feature
    importance and the histogram overlap of [plot_distribution].

    Numbers.  Python and numpy floats are modelled by [float]: a rational
    for every finite value plus the three special values that decide the
    control flow of the scripts ([nan], [+inf], [-inf]).  Finite arithmetic
    is exact: rounding, overflow to infinity and the sign of zero are not
    modelled.  Comparisons follow IEEE 754: every ordered comparison with
    [nan] is false. *)

From Stdlib Require Import QArith Qminmax Lqa ZArith Lia.
From stdpp Require Import gmap strings list.

Set Default Proof Using "Type".

(** ** Floating-point values *)

Inductive float : Type :=
  | NaN
  | NegInf
  | Fin (q : Q)
  | PosInf.

Definition Qltb (x y : Q) : bool :=
  (Qnum x * QDen y <? Qnum y * QDen x)%Z.

Definition Qleb (x y : Q) : bool :=
  (Qnum x * QDen y <=? Qnum y * QDen x)%Z.

(** [x < y] on floats. *)
Definition flt (x y : float) : bool :=
  match x, y with
  | NaN, _ | _, NaN => false
  | NegInf, NegInf => false
  | NegInf, _ => true
  | Fin _, NegInf => false
  | Fin a, Fin b => Qltb a b
  | Fin _, PosInf => true
  | PosInf, _ => false
  end.

(** [x > y] on floats. *)
Definition fgt (x y : float) : bool := flt y x.

(** [x <= y] on floats. *)
Definition fle (x y : float) : bool :=
  match x, y with
  | NaN, _ | _, NaN => false
  | NegInf, _ => true
  | Fin _, NegInf => false
  | Fin a, Fin b => Qleb a b
  | Fin _, PosInf => true
  | PosInf, PosInf => true
  | PosInf, _ => false
  end.

Definition fneg (x : float) : float :=
  match x with
  | NaN => NaN
  | NegInf => PosInf
  | Fin a => Fin (- a)
  | PosInf => NegInf
  end.

Definition fadd (x y : float) : float :=
  match x, y with
  | NaN, _ | _, NaN => NaN
  | Fin a, Fin b => Fin (a + b)
  | PosInf, NegInf | NegInf, PosInf => NaN
  | PosInf, _ | _, PosInf => PosInf
  | NegInf, _ | _, NegInf => NegInf
  end.

Definition fsub (x y : float) : float := fadd x (fneg y).

(** Sign of a rational, as used by the rules for infinities. *)
Definition Qsgn (a : Q) : Z := Z.sgn (Qnum a).

(** An infinity of the given sign; a zero sign gives [nan]
    ([inf * 0] and [0 / 0]). *)
Definition signed_inf (s : Z) : float :=
  match s with
  | Z0 => NaN
  | Zpos _ => PosInf
  | Zneg _ => NegInf
  end.

Definition fmul (x y : float) : float :=
  match x, y with
  | NaN, _ | _, NaN => NaN
  | Fin a, Fin b => Fin (a * b)
  | Fin a, PosInf | PosInf, Fin a => signed_inf (Qsgn a)
  | Fin a, NegInf | NegInf, Fin a => signed_inf (- Qsgn a)
  | PosInf, PosInf | NegInf, NegInf => PosInf
  | PosInf, NegInf | NegInf, PosInf => NegInf
  end.

(** Division of the numerical libraries (numpy, torch): dividing by zero
    does not raise, it gives an infinity or, for [0 / 0], [nan]. *)
Definition fdiv (x y : float) : float :=
  match x, y with
  | NaN, _ | _, NaN => NaN
  | Fin a, Fin b =>
      if Qeq_bool b 0 then signed_inf (Qsgn a) else Fin (a / b)
  | Fin _, (PosInf | NegInf) => Fin 0
  | PosInf, Fin b => if Qltb b 0 then NegInf else PosInf
  | NegInf, Fin b => if Qltb b 0 then PosInf else NegInf
  | (PosInf | NegInf), (PosInf | NegInf) => NaN
  end.

(** [x ** 2]. *)
Definition fpow2 (x : float) : float := fmul x x.

Definition of_Z (z : Z) : float := Fin (inject_Z z).
Definition of_nat (n : nat) : float := of_Z (Z.of_nat n).

(** Python's own [float / int]: a zero divisor raises
    [ZeroDivisionError], modelled by [None]. *)
Definition py_truediv (x : float) (n : nat) : option float :=
  match n with
  | O => None
  | S _ => Some (fdiv x (of_nat n))
  end.

Definition is_nan (x : float) : bool :=
  match x with NaN => true | _ => false end.

Definition is_finite (x : float) : bool :=
  match x with Fin _ => true | _ => false end.

(** One-dimensional tensors and arrays. *)
Abbreviation tensor := (list float).

Definition fsum (t : tensor) : float := fold_left fadd t (Fin 0).

(** [torch.mean], [np.mean]: the mean of an empty tensor is [nan]. *)
Definition fmean (t : tensor) : float := fdiv (fsum t) (of_nat (length t)).

(** ** The weighted loss ([training.py], class [WeightedMSELoss]) *)

(** Constructor arguments are Python scalars: the defaults mix an [int]
    ([low_threshold=4]) with a [float] ([high_threshold=14.5]). *)
Inductive scalar : Type :=
  | PyInt (z : Z)
  | PyFloat (f : float).

Definition to_float (s : scalar) : float :=
  match s with
  | PyInt z => of_Z z
  | PyFloat f => f
  end.

Record WeightedMSELoss : Type := mkWeightedMSELoss {
  high_threshold : scalar;
  low_threshold : scalar;
  high_weight : scalar;
  low_weight : scalar;
  very_low_weight : scalar
}.

(** [WeightedMSELoss()] with every argument left at its default
    ([__init__], lines 7-13). *)
Definition WeightedMSELoss_default : WeightedMSELoss :=
  {| high_threshold := PyFloat (Fin (29 # 2));
     low_threshold := PyInt 4;
     high_weight := PyInt 6;
     low_weight := PyInt 1;
     very_low_weight := PyInt 3 |}.

(** Elementwise tensor operation with the broadcasting rule for
    one-dimensional operands: equal lengths, or one operand of length 1.
    Any other pair of lengths raises ([None]). *)
Definition broadcast2 (f : float -> float -> float) (a b : tensor)
  : option tensor :=
  match a, b with
  | [x], _ => Some (map (f x) b)
  | _, [y] => Some (map (fun x => f x y) a)
  | _, _ =>
      if decide (length a = length b) then Some (zip_with f a b) else None
  end.

(** [torch.where(cond, x, y)] with two scalars, and with a scalar and a
    tensor of the shape of [cond]. *)
Definition where_ss (cond : list bool) (x y : float) : tensor :=
  map (fun c : bool => if c then x else y) cond.

Definition where_st (cond : list bool) (x : float) (y : tensor) : tensor :=
  zip_with (fun (c : bool) v => if c then x else v) cond y.

(** The [weights] tensor of [forward] (lines 17-18). *)
Definition weights (self : WeightedMSELoss) (targets : tensor) : tensor :=
  where_st (map (fun t => fgt t (to_float (high_threshold self))) targets)
    (to_float (high_weight self))
    (where_ss (map (fun t => flt t (to_float (low_threshold self))) targets)
       (to_float (very_low_weight self))
       (to_float (low_weight self))).

(** [WeightedMSELoss.forward] (lines 15-21). *)
Definition forward (self : WeightedMSELoss) (outputs targets : tensor)
  : option float :=
  diff ← broadcast2 fsub outputs targets;
  let squared_diff := map fpow2 diff in
  weighted_squared_diff ← broadcast2 fmul (weights self targets) squared_diff;
  Some (fmean weighted_squared_diff).

(** The criterion that [train_model] builds (line 24): every argument is
    written out, [low_threshold] as the float [4.0]. *)
Definition train_criterion : WeightedMSELoss :=
  {| high_threshold := PyFloat (Fin (29 # 2));
     low_threshold := PyFloat (Fin 4);
     high_weight := PyInt 6;
     low_weight := PyInt 1;
     very_low_weight := PyInt 3 |}.

(** ** Errors *)

Inductive error : Type :=
  | ZeroDivisionError
  | ShapeError
  | SizeMismatch
  | NameError
  | ValueError.

Inductive result (A : Type) : Type :=
  | Ok (a : A)
  | Raise (e : error).
Arguments Ok {A} a.
Arguments Raise {A} e.

#[global] Instance result_ret : MRet result := @Ok.
#[global] Instance result_bind : MBind result :=
  fun A B (f : A -> result B) (m : result A) =>
    match m with
    | Ok a => f a
    | Raise e => Raise e
    end.

Definition of_option {A} (e : error) (o : option A) : result A :=
  match o with
  | Some a => Ok a
  | None => Raise e
  end.

(** ** The training loop ([training.py], [train_model]) *)

(** A batch: the feature rows and the target of each row.  The source
    keeps targets and model outputs as columns of shape [(B, 1)]; they are
    read here as vectors of length [B]. *)
Abbreviation batch := (list tensor * tensor)%type.

(** [TensorDataset(X, y)]: both tensors must have the same number of rows. *)
Definition TensorDataset (X : list tensor) (y : tensor)
  : result (list (tensor * float)) :=
  if decide (length X = length y) then Ok (zip X y) else Raise SizeMismatch.

Fixpoint chunks_fuel {A} (fuel n : nat) (l : list A) : list (list A) :=
  match fuel with
  | O => []
  | S fuel' =>
      match l with
      | [] => []
      | _ :: _ => take n l :: chunks_fuel fuel' n (drop n l)
      end
  end.

(** Consecutive slices of [n] rows; the last one may be shorter.  One unit
    of fuel per row is enough for any positive [n]. *)
Definition chunks {A} (n : nat) (l : list A) : list (list A) :=
  chunks_fuel (length l) n l.

(** [DataLoader(dataset, batch_size=32, shuffle=...)], iterated once with
    the rows in the order [order] puts them in. *)
Definition DataLoader (order : list (tensor * float) -> list (tensor * float))
    (dataset : list (tensor * float)) : list batch :=
  map (fun rows => (map fst rows, map snd rows)) (chunks 32 (order dataset)).

(** The line printed every 100th epoch (line 64). *)
Record progress_line : Type := mkProgressLine {
  pl_epoch : nat;
  pl_epochs : nat;
  pl_loss : float;
  pl_val_loss : float
}.

Section train_model.
(** The model and the optimizer are opaque: [params] is what
    [model.state_dict()] returns, [model_call] the forward pass in the
    current mode ([true] after [model.train()], [false] after
    [model.eval()]), [Adam] the construction of the optimizer and
    [optimizer_step] the effect of [zero_grad(); backward(); step()] for
    the loss of one batch.  [shuffle] is the order in which the shuffled
    training loader yields the rows in each epoch. *)
Context {params opt_state : Type}.
Variable model_call : bool -> params -> list tensor -> tensor.
Variable Adam : params -> float -> opt_state.
Variable optimizer_step : opt_state -> params -> batch -> opt_state * params.
Variable shuffle : nat -> list (tensor * float) -> list (tensor * float).

(** What one epoch computed, kept as an observation trace next to the
    program state: the criterion value of every training and validation
    batch in order, the mean validation loss of line 58, the parameters
    the model had when the epoch was validated, whether line 61 saved
    them, and the line printed by line 64, if any. *)
Record epoch_record : Type := mkEpochRecord {
  ep_train_losses : list float;
  ep_val_losses : list float;
  ep_val_loss : float;
  ep_state_dict : params;
  ep_saved : bool;
  ep_printed : option progress_line
}.

Record train_state : Type := mkTrainState {
  ts_params : params;
  ts_optim : opt_state;
  ts_training : bool;
  ts_best_val_loss : float;
  ts_loss : option float;            (* the variable [loss] *)
  ts_files : gmap string params;     (* checkpoint files on disk; a write
                                        to [model_path] always succeeds *)
  ts_stdout : list progress_line;
  ts_history : list epoch_record
}.

(** Lines 41-47, one training batch.  Returns the new model and optimizer
    state and the value bound to [loss]. *)
Definition train_batch (training : bool) (m : params * opt_state) (b : batch)
  : result (params * opt_state * float) :=
  let outputs := model_call training m.1 b.1 in
  loss ← of_option ShapeError (forward train_criterion outputs b.2);
  let '(o, p) := optimizer_step m.2 m.1 b in
  Ok (p, o, loss).

(** Lines 41-47, the loop over [train_loader]: threads the model, the
    optimizer and the variable [loss], and collects the losses. *)
Fixpoint train_batches (training : bool) (m : params * opt_state)
    (loss : option float) (seen : list float) (bs : list batch)
  : result (params * opt_state * option float * list float) :=
  match bs with
  | [] => Ok (m, loss, seen)
  | b :: bs' =>
      '(p, o, l) ← train_batch training m b;
      train_batches training (p, o) (Some l) (seen ++ [l]) bs'
  end.

(** Lines 53-56, the loop over [val_loader]: accumulates [val_loss] and
    rebinds the variable [loss] at every batch. *)
Fixpoint val_batches (training : bool) (p : params) (val_loss : float)
    (loss : option float) (seen : list float) (bs : list batch)
  : result (float * option float * list float) :=
  match bs with
  | [] => Ok (val_loss, loss, seen)
  | b :: bs' =>
      let outputs := model_call training p b.1 in
      l ← of_option ShapeError (forward train_criterion outputs b.2);
      val_batches training p (fadd val_loss l) (Some l) (seen ++ [l]) bs'
  end.

(** Lines 40-64, the body of the epoch loop for [epoch] (counted from 0). *)
Definition run_epoch (train_dataset val_dataset : list (tensor * float))
    (model_path : string) (epochs epoch : nat) (st : train_state)
  : result train_state :=
  let train_loader := DataLoader (shuffle epoch) train_dataset in
  let val_loader := DataLoader id val_dataset in
  (* model.train() *)
  '(p, o, loss, train_losses) ←
    train_batches true (ts_params st, ts_optim st) (ts_loss st) []
      train_loader;
  (* model.eval() *)
  '(val_loss, loss, val_losses) ←
    val_batches false p (Fin 0) loss [] val_loader;
  val_loss ← of_option ZeroDivisionError
    (py_truediv val_loss (length val_loader));
  let improved := flt val_loss (ts_best_val_loss st) in
  let best_val_loss :=
    if improved then val_loss else ts_best_val_loss st in
  let files :=
    if improved then <[model_path := p]> (ts_files st) else ts_files st in
  printed ←
    (if decide ((epoch + 1) mod 100 = 0) then
       l ← of_option NameError loss;
       Ok (Some (mkProgressLine (epoch + 1) epochs l val_loss))
     else Ok None);
  Ok {| ts_params := p;
        ts_optim := o;
        ts_training := false;
        ts_best_val_loss := best_val_loss;
        ts_loss := loss;
        ts_files := files;
        ts_stdout := ts_stdout st ++ option_list printed;
        ts_history := ts_history st ++
          [mkEpochRecord train_losses val_losses val_loss p improved
             printed] |}.

(** The first [k] iterations of [for epoch in range(epochs)]. *)
Fixpoint train_loop (train_dataset val_dataset : list (tensor * float))
    (model_path : string) (epochs k : nat) (st : train_state)
  : result train_state :=
  match k with
  | O => Ok st
  | S k' =>
      st' ← train_loop train_dataset val_dataset model_path epochs k' st;
      run_epoch train_dataset val_dataset model_path epochs k' st'
  end.

(** The state at line 37, before the first epoch.  [training] is the
    mode the caller left the model in and [files] what is on disk. *)
Definition initial_state (model : params) (training : bool)
    (learning_rate : float) (files : gmap string params) : train_state :=
  {| ts_params := model;
     ts_optim := Adam model learning_rate;
     ts_training := training;
     ts_best_val_loss := PosInf;
     ts_loss := None;
     ts_files := files;
     ts_stdout := [];
     ts_history := [] |}.

(** [train_model] stopped after its first [k] epochs ([k <= epochs]). *)
Definition train_model_upto (model : params) (training : bool)
    (X_train : list tensor) (y_train : tensor)
    (X_val : list tensor) (y_val : tensor)
    (epochs : nat) (learning_rate : float) (model_path : string)
    (files : gmap string params) (k : nat) : result train_state :=
  train_dataset ← TensorDataset X_train y_train;
  val_dataset ← TensorDataset X_val y_val;
  train_loop train_dataset val_dataset model_path epochs k
    (initial_state model training learning_rate files).

(** [train_model] (lines 23-64). *)
Definition train_model (model : params) (training : bool)
    (X_train : list tensor) (y_train : tensor)
    (X_val : list tensor) (y_val : tensor)
    (epochs : nat) (learning_rate : float) (model_path : string)
    (files : gmap string params) : result train_state :=
  train_model_upto model training X_train y_train X_val y_val epochs
    learning_rate model_path files epochs.

(** The mean validation losses of the epochs run so far, and the epochs
    (counted from 1) at which the checkpoint was written. *)
Definition val_losses (st : train_state) : list float :=
  map ep_val_loss (ts_history st).

Definition saved_epochs (st : train_state) : list nat :=
  omap (fun '(i, r) => if ep_saved r then Some (S i) else None)
    (imap pair (ts_history st)).

End train_model.

(** ** Model evaluation ([evaluation.py], [evaluate_model]) *)

(** A feature table as [evaluate_model] receives it: a pandas [DataFrame]
    or a numpy array, both holding rows of numbers. *)
Inductive table : Type :=
  | DataFrame (values : list tensor)
  | NdArray (values : list tensor).

(** Lines 13-16: [X.values] for a [DataFrame], [X] itself otherwise. *)
Definition table_values (X : table) : list tensor :=
  match X with
  | DataFrame values => values
  | NdArray values => values
  end.

(** [os.path.join] on a POSIX system. *)
Definition path_join (a b : string) : string := (a +:+ "/" +:+ b)%string.

(** Commands sent to the plotting backend for the current figure. *)
Inductive plot_cmd : Type :=
  | Scatter (xs ys : tensor)
  | Plot (xs ys : tensor) (fmt : string)
  | Xlabel (s : string)
  | Ylabel (s : string)
  | Title (s : string).

(** One line of the metric report (lines 36-37). *)
Record metrics_line : Type := mkMetricsLine {
  ml_partition : string;
  ml_rmse : float;
  ml_mae : float;
  ml_r2 : float
}.

(** One forward pass of the model, with the mode the model was in and
    whether gradient tracking was enabled when it ran. *)
Record forward_pass : Type := mkForwardPass {
  fp_training : bool;
  fp_grad_enabled : bool;
  fp_input : list tensor
}.

(** Everything [evaluate_model] reads or changes outside its arguments. *)
Record world : Type := mkWorld {
  w_training : bool;                   (* mode of the model *)
  w_grad_enabled : bool;               (* torch's gradient mode *)
  w_passes : list forward_pass;        (* forward passes so far *)
  w_stdout : list metrics_line;
  w_dirs : gset string;
  w_files : gmap string (list plot_cmd);
  w_figure : list plot_cmd             (* the current pyplot figure *)
}.

(** Programs over the world that may raise; the world reached is kept when
    they do. *)
Definition io (A : Type) : Type := world -> world * result A.

Definition io_ret {A} (a : A) : io A := fun w => (w, Ok a).

Definition io_bind {A B} (m : io A) (f : A -> io B) : io B :=
  fun w =>
    match m w with
    | (w', Ok a) => f a w'
    | (w', Raise e) => (w', Raise e)
    end.

Declare Scope io_scope.
Delimit Scope io_scope with io.
Notation "x <- m ;; k" := (io_bind m (fun x => k))
  (at level 100, m at next level, right associativity) : io_scope.
Notation "m ;; k" := (io_bind m (fun _ => k))
  (at level 100, right associativity) : io_scope.

Definition io_modify (f : world -> world) : io unit := fun w => (f w, Ok tt).

Definition io_lift {A} (r : result A) : io A := fun w => (w, r).

Definition set_training (b : bool) (w : world) : world :=
  mkWorld b (w_grad_enabled w) (w_passes w) (w_stdout w) (w_dirs w)
    (w_files w) (w_figure w).

Definition set_grad_enabled (b : bool) (w : world) : world :=
  mkWorld (w_training w) b (w_passes w) (w_stdout w) (w_dirs w)
    (w_files w) (w_figure w).

Definition log_pass (X : list tensor) (w : world) : world :=
  mkWorld (w_training w) (w_grad_enabled w)
    (w_passes w ++ [mkForwardPass (w_training w) (w_grad_enabled w) X])
    (w_stdout w) (w_dirs w) (w_files w) (w_figure w).

Definition print_line (l : metrics_line) (w : world) : world :=
  mkWorld (w_training w) (w_grad_enabled w) (w_passes w)
    (w_stdout w ++ [l]) (w_dirs w) (w_files w) (w_figure w).

Definition set_figure (f : list plot_cmd) (w : world) : world :=
  mkWorld (w_training w) (w_grad_enabled w) (w_passes w) (w_stdout w)
    (w_dirs w) (w_files w) f.

(** [os.makedirs(d, exist_ok=True)]. *)
Definition makedirs_exist_ok (d : string) (w : world) : world :=
  mkWorld (w_training w) (w_grad_enabled w) (w_passes w) (w_stdout w)
    ({[d]} ∪ w_dirs w) (w_files w) (w_figure w).

(** [plt.savefig(path)]: the current figure is written to [path]. *)
Definition savefig (path : string) (w : world) : world :=
  mkWorld (w_training w) (w_grad_enabled w) (w_passes w) (w_stdout w)
    (w_dirs w) (<[path := w_figure w]> (w_files w)) (w_figure w).

(** [with torch.no_grad(): body]: gradient tracking is off inside and set
    back to what it was on the way out, also when [body] raises. *)
Definition no_grad {A} (body : io A) : io A :=
  fun w =>
    let '(w', r) := body (set_grad_enabled false w) in
    (set_grad_enabled (w_grad_enabled w) w', r).

(** [pandas.Series.min] and [.max]: [nan] values are skipped and an empty
    series gives [nan]. *)
Definition series_min (y : tensor) : float :=
  fold_left (fun m v => if is_nan v then m
                        else if is_nan m then v
                        else if flt v m then v else m) y NaN.

Definition series_max (y : tensor) : float :=
  fold_left (fun m v => if is_nan v then m
                        else if is_nan m then v
                        else if flt m v then v else m) y NaN.

Section evaluate_model.
(** The model is opaque: [predict] is its forward pass, which may depend
    on the mode it is in.  The three scikit-learn metrics are opaque too
    and may raise (they refuse [nan] and mismatched lengths);
    [mean_squared_error] takes its [squared] flag first. *)
Variable predict : bool -> list tensor -> tensor.
Variable mean_squared_error : bool -> tensor -> tensor -> result float.
Variable mean_absolute_error : tensor -> tensor -> result float.
Variable r2_score : tensor -> tensor -> result float.

(** [model(X)] in the current state of the world. *)
Definition call_model (X : list tensor) : io tensor :=
  fun w => (log_pass X w, Ok (predict (w_training w) X)).

(** [evaluate_model] (lines 9-49). *)
Definition evaluate_model (X_test : table) (y_test : tensor)
    (X_train : table) (y_train : tensor) : io unit :=
  (io_modify (set_training false) ;;                     (* model.eval() *)
   let X_test := table_values X_test in
   let X_train := table_values X_train in
   preds <- no_grad (y_train_pred <- call_model X_train ;;
                     y_test_pred <- call_model X_test ;;
                     io_ret (y_train_pred, y_test_pred)) ;;
   let '(y_train_pred, y_test_pred) := preds in
   rmse_train <- io_lift (mean_squared_error false y_train y_train_pred) ;;
   mae_train <- io_lift (mean_absolute_error y_train y_train_pred) ;;
   r2_train <- io_lift (r2_score y_train y_train_pred) ;;
   rmse_test <- io_lift (mean_squared_error false y_test y_test_pred) ;;
   mae_test <- io_lift (mean_absolute_error y_test y_test_pred) ;;
   r2_test <- io_lift (r2_score y_test y_test_pred) ;;
   io_modify (print_line
     (mkMetricsLine "Training" rmse_train mae_train r2_train)) ;;
   io_modify (print_line
     (mkMetricsLine "Testing" rmse_test mae_test r2_test)) ;;
   io_modify (set_figure []) ;;                          (* plt.figure *)
   io_modify (fun w => set_figure
     (w_figure w ++
      [Scatter y_test y_test_pred;
       Plot [series_min y_test; series_max y_test]
            [series_min y_test; series_max y_test] "r--";
       Xlabel "Actual Values";
       Ylabel "Predicted Values";
       Title "Actual vs. Predicted Values"]) w) ;;
   io_modify (makedirs_exist_ok "results") ;;
   io_modify (savefig (path_join "results" "actual_vs_predicted.png")) ;;
   io_modify (set_figure []))%io.                        (* plt.close *)

End evaluate_model.

(** ** Permutation feature importance ([evaluation.py], lines 51-73) *)

(** A two-dimensional numpy array: its second dimension and its rows.  In
    a well-formed array every row has [nd_cols] entries. *)
Record ndarray : Type := mkNdarray {
  nd_cols : nat;
  nd_rows : list tensor
}.

Definition wf_ndarray (a : ndarray) : Prop :=
  Forall (fun r : tensor => length r = nd_cols a) (nd_rows a).

(** [a[:, col]] read as a vector of values. *)
Definition get_col (col : nat) (rows : list tensor) : tensor :=
  map (fun r : tensor => default NaN (r !! col)) rows.

(** Writing [vals] through the view [a[:, col]]. *)
Definition set_col (col : nat) (vals : tensor) (rows : list tensor)
  : list tensor :=
  imap (fun i (r : tensor) =>
          match vals !! i with
          | Some v => <[col := v]> r
          | None => r
          end) rows.

(** Arrays live in a store and are passed by reference, as in Python. *)
Abbreviation loc := positive.
Abbreviation store := (gmap loc ndarray).

Section permutation_importance.
(** [model] stands for [model(torch.tensor(X, ...)).detach().numpy()]:
    the tensor is built from a copy of the array, so the model sees the
    values only.  [metric] is the score function (by default
    scikit-learn's [mean_squared_error]), which may raise.
    [np_random_shuffle] is [np.random.shuffle] on a vector with the
    generator state [rng] it draws from. *)
Context {rng : Type}.
Variable model : list tensor -> tensor.
Variable metric : tensor -> tensor -> result float.
Variable np_random_shuffle : rng -> tensor -> rng * tensor.

(** The state the function works on: the store, the generator, the list
    [importances], and the inputs the model was called with inside the
    loop, in order. *)
Record perm_state : Type := mkPermState {
  ps_store : store;
  ps_rng : rng;
  ps_importances : list float;
  ps_inputs : list (list tensor)
}.

(** Lines 56-71, the loop body for column [col]. *)
Definition perm_step (X_test_copy : loc) (y_test : tensor)
    (baseline_score : float) (s : perm_state) (col : nat)
  : result perm_state :=
  a ← of_option NameError (ps_store s !! X_test_copy);
  (* original_feature = X_test_copy[:, col].copy() *)
  let original_feature := get_col col (nd_rows a) in
  (* np.random.shuffle(X_test_copy[:, col]) *)
  let '(g, shuffled) := np_random_shuffle (ps_rng s) (get_col col (nd_rows a)) in
  let a1 := mkNdarray (nd_cols a) (set_col col shuffled (nd_rows a)) in
  let h1 := <[X_test_copy := a1]> (ps_store s) in
  (* shuffled_score = metric(y_test, model(X_test_copy)) *)
  a1' ← of_option NameError (h1 !! X_test_copy);
  shuffled_score ← metric y_test (model (nd_rows a1'));
  let importance := fsub shuffled_score baseline_score in
  (* X_test_copy[:, col] = original_feature *)
  let a2 :=
    mkNdarray (nd_cols a1') (set_col col original_feature (nd_rows a1')) in
  let h2 := <[X_test_copy := a2]> h1 in
  Ok (mkPermState h2 g (ps_importances s ++ [importance])
        (ps_inputs s ++ [nd_rows a1'])).

Fixpoint perm_loop (X_test_copy : loc) (y_test : tensor)
    (baseline_score : float) (s : perm_state) (cols : list nat)
  : result perm_state :=
  match cols with
  | [] => Ok s
  | col :: cols' =>
      s' ← perm_step X_test_copy y_test baseline_score s col;
      perm_loop X_test_copy y_test baseline_score s' cols'
  end.

(** [permutation_importance(model, X_test, y_test, metric)]: [X_test] is
    a reference into the store [h]. *)
Definition permutation_importance (h : store) (g : rng) (X_test : loc)
    (y_test : tensor) : result perm_state :=
  X ← of_option NameError (h !! X_test);
  (* X_test_copy = X_test.copy() *)
  let X_test_copy := fresh (dom h) in
  let h := <[X_test_copy := X]> h in
  X' ← of_option NameError (h !! X_test);
  baseline_score ← metric y_test (model (nd_rows X'));
  c ← of_option NameError (h !! X_test_copy);
  perm_loop X_test_copy y_test baseline_score
    (mkPermState h g [] []) (seq 0 (nd_cols c)).

End permutation_importance.

(** ** Distribution overlap ([evaluation.py], lines 107-114) *)

Definition Qlist_min (x : Q) (l : list Q) : Q := fold_left Qmin l x.
Definition Qlist_max (x : Q) (l : list Q) : Q := fold_left Qmax l x.

(** The finite values of an array, or [None] if one is not finite. *)
Definition finite_values (a : tensor) : option (list Q) :=
  mapM (fun x => match x with Fin q => Some q | _ => None end) a.

(** numpy's choice of the range of an automatic histogram: [(0, 1)] for an
    empty array, the minimum and maximum otherwise, widened by one half on
    each side when they coincide; a range that is not finite raises. *)
Definition outer_edges (a : tensor) : result (Q * Q) :=
  match finite_values a with
  | None => Raise ValueError
  | Some [] => Ok (0, 1)%Q
  | Some (q :: qs) =>
      let first_edge := Qlist_min q qs in
      let last_edge := Qlist_max q qs in
      if Qeq_bool first_edge last_edge
      then Ok (first_edge - (1 # 2), last_edge + (1 # 2))%Q
      else Ok (first_edge, last_edge)
  end.

(** [np.linspace(start, stop, num + 1)]: [num] steps, the last point set
    to [stop] itself. *)
Definition linspace (start stop : Q) (num : nat) : list Q :=
  let step := ((stop - start) / inject_Z (Z.of_nat num))%Q in
  map (fun i : nat => (inject_Z (Z.of_nat i) * step + start)%Q) (seq 0 num)
    ++ [stop].

Definition count_if (p : float -> bool) (a : tensor) : Z :=
  Z.of_nat (length (filter (fun x => p x = true) a)).

(** numpy's cumulative counts at the bin edges: the number of values
    strictly below each edge, and for the last edge the number of values
    below or equal to it. *)
Fixpoint cumulative_counts (a : tensor) (edges : list Q) : list Z :=
  match edges with
  | [] => []
  | [e] => [count_if (fun x => fle x (Fin e)) a]
  | e :: edges' =>
      count_if (fun x => flt x (Fin e)) a :: cumulative_counts a edges'
  end.

(** [np.diff] on integers and on rationals. *)
Fixpoint Zdiff (l : list Z) : list Z :=
  match l with
  | x :: (y :: _) as l' => (y - x)%Z :: Zdiff l'
  | _ => []
  end.

Fixpoint Qdiff (l : list Q) : list Q :=
  match l with
  | x :: (y :: _) as l' => (y - x)%Q :: Qdiff l'
  | _ => []
  end.

Definition Zsum (l : list Z) : Z := fold_left Z.add l 0%Z.

(** [np.histogram(a, bins=edges, density=True)[0]]: the counts per bin
    (every bin is closed on the left and open on the right, the last one
    closed on both sides), divided by the bin widths and by the number of
    values counted. *)
Definition histogram_density (a : tensor) (edges : list Q) : tensor :=
  let n := Zdiff (cumulative_counts a edges) in
  let db := Qdiff edges in
  zip_with (fun (c : Z) (w : Q) => fdiv (fdiv (of_Z c) (Fin w)) (of_Z (Zsum n)))
    n db.

(** [np.histogram(a, bins=30, density=True)]: the edges are computed from
    the data; the counts are those of the edges. *)
Definition histogram_auto (a : tensor) (bins : nat)
  : result (tensor * list Q) :=
  '(first_edge, last_edge) ← outer_edges a;
  let edges := linspace first_edge last_edge bins in
  Ok (histogram_density a edges, edges).

(** [np.minimum]: [nan] if either argument is. *)
Definition fminimum (x y : float) : float :=
  if is_nan x then NaN
  else if is_nan y then NaN
  else if flt y x then y else x.

(** The value [plot_distribution] returns (lines 108-114). *)
Definition plot_distribution (y_test y_test_pred : tensor) : result float :=
  '(hist_actual, bins) ← histogram_auto y_test 30;
  let hist_pred := histogram_density y_test_pred bins in
  let overlap :=
    fsum (zip_with fmul (zip_with fminimum hist_actual hist_pred)
            (map Fin (Qdiff bins))) in
  Ok overlap.

(** ** Statements of the weighted loss *)

(** The weight of an element whose target is [t], in the words of the
    specification: three bands selected by the target. *)
Definition weight_of (self : WeightedMSELoss) (t : float) : float :=
  if fgt t (to_float (high_threshold self)) then to_float (high_weight self)
  else if flt t (to_float (low_threshold self))
       then to_float (very_low_weight self)
       else to_float (low_weight self).

(** The band rule with both boundaries: what weight [w] a target [t] is
    said to receive. *)
Definition weight_bands (self : WeightedMSELoss) (t w : float) : Prop :=
  (fgt t (to_float (high_threshold self)) = true ->
     w = to_float (high_weight self)) /\
  (flt t (to_float (low_threshold self)) = true ->
     w = to_float (very_low_weight self)) /\
  (fgt t (to_float (high_threshold self)) = false ->
   flt t (to_float (low_threshold self)) = false ->
     w = to_float (low_weight self)) /\
  (t = to_float (high_threshold self) -> w = to_float (low_weight self)) /\
  (t = to_float (low_threshold self) -> w = to_float (low_weight self)).

(** A loss whose thresholds are in the other order. *)
Definition misordered_loss : WeightedMSELoss :=
  {| high_threshold := PyInt 1;
     low_threshold := PyInt 10;
     high_weight := PyInt 6;
     low_weight := PyInt 1;
     very_low_weight := PyInt 3 |}.

(** A loss with every weight equal to one. *)
Definition unit_weight_loss : WeightedMSELoss :=
  {| high_threshold := PyFloat (Fin (29 # 2));
     low_threshold := PyInt 4;
     high_weight := PyInt 1;
     low_weight := PyInt 1;
     very_low_weight := PyInt 1 |}.

(** The weighted squared errors of a batch and the plain mean squared
    error, in the words of the specification. *)
Definition weighted_squared_errors (self : WeightedMSELoss)
    (outputs targets : tensor) : tensor :=
  zip_with (fun o t => fmul (weight_of self t) (fpow2 (fsub o t)))
    outputs targets.

Definition plain_mse (outputs targets : tensor) : float :=
  fmean (zip_with (fun o t => fpow2 (fsub o t)) outputs targets).

Definition unit_weights (self : WeightedMSELoss) : Prop :=
  to_float (high_weight self) = Fin 1 /\
  to_float (low_weight self) = Fin 1 /\
  to_float (very_low_weight self) = Fin 1.

(** ** Statements of the training loop *)

(** Two floats denote the same number. *)
Definition feq (x y : float) : Prop :=
  match x, y with
  | NaN, NaN | NegInf, NegInf | PosInf, PosInf => True
  | Fin a, Fin b => (a == b)%Q
  | _, _ => False
  end.

(** [v] is strictly less than every loss in [prior] (the rule as the
    specification words it: with no prior epoch, any loss qualifies). *)
Definition below_all_prior (v : float) (prior : list float) : Prop :=
  forall u, u ∈ prior -> flt v u = true.

(** [v] is strictly less than [+inf] and than every loss in [prior] that
    is a number. *)
Definition improves_on (v : float) (prior : list float) : Prop :=
  flt v PosInf = true /\
  forall u, u ∈ prior -> is_nan u = false -> flt v u = true.

(** [m] is the minimum of [+inf] and the losses in [vs] that are numbers. *)
Definition running_minimum (m : float) (vs : list float) : Prop :=
  is_nan m = false /\
  (m = PosInf \/ m ∈ vs) /\
  forall u, u ∈ vs -> is_nan u = false -> fle m u = true.

(** [m] is the minimum of the losses in [vs]. *)
Definition list_minimum (m : float) (vs : list float) : Prop :=
  m ∈ vs /\ forall u, u ∈ vs -> fle m u = true.

(** The value [best_val_loss] has after the losses [vs], one per epoch. *)
Definition running_best (vs : list float) : float :=
  fold_left (fun best v => if flt v best then v else best) vs PosInf.

(** A stand-in for a trained network, enough to drive the loop through a
    chosen sequence of losses: its parameters count the optimizer steps
    taken, and its predictions are read from a table, one entry per step,
    for each mode. *)
Definition replay_model (train_outputs val_outputs : list tensor)
  : bool -> nat -> list tensor -> tensor :=
  fun training steps _ =>
    if training then nth steps train_outputs []
    else nth (pred steps) val_outputs [].

Definition replay_step : unit -> nat -> batch -> unit * nat :=
  fun o steps _ => (o, S steps).

(** A run of [train_model] on one training row and four validation rows,
    all with target 5, where the model replays the given validation
    predictions and predicts the training target exactly. *)
Definition replay_run (val_outputs : list tensor) (epochs : nat)
  : result (@train_state nat unit) :=
  train_model (replay_model (repeat [Fin 5] epochs) val_outputs)
    (fun _ _ => tt) replay_step (fun _ rows => rows)
    0%nat true [[Fin 0]] [Fin 5]
    [[Fin 0]; [Fin 1]; [Fin 2]; [Fin 3]] [Fin 5; Fin 5; Fin 5; Fin 5]
    epochs (Fin (1 # 1000)) "models/best_model.pth" ∅.

(** Validation predictions whose mean validation losses are 5, 3, 4, 2. *)
Definition outputs_5_3_4_2 : list tensor :=
  [[Fin 9; Fin 7; Fin 5; Fin 5];
   [Fin 7; Fin 7; Fin 7; Fin 5];
   [Fin 9; Fin 5; Fin 5; Fin 5];
   [Fin 7; Fin 7; Fin 5; Fin 5]].

(** Validation predictions of a model that has diverged in the first
    epoch: an infinite prediction, and a prediction that is not a number. *)
Definition outputs_inf : list tensor := [[PosInf; Fin 5; Fin 5; Fin 5]].
Definition outputs_nan : list tensor := [[NaN; Fin 5; Fin 5; Fin 5]].

(** A model whose training loss is 0 and whose validation loss is 1 in
    every epoch: it predicts the target (5) in training mode and 6 in
    evaluation mode.  One training row, one validation row. *)
Definition two_faced_model : bool -> unit -> list tensor -> tensor :=
  fun training _ _ => if training then [Fin 5] else [Fin 6].

Definition two_faced_run (epochs : nat) : result (@train_state unit unit) :=
  train_model two_faced_model (fun _ _ => tt) (fun o p _ => (o, p))
    (fun _ rows => rows)
    tt true [[Fin 0]] [Fin 5] [[Fin 0]] [Fin 5]
    epochs (Fin (1 # 1000)) "models/best_model.pth" ∅.

(** The invariant of the epoch loop after [k] epochs, for a run that
    started with the files [files0] on disk. *)
Record loop_inv {params opt_state : Type} (model_path : string)
    (epochs : nat) (files0 : gmap string params) (k : nat)
    (st : @train_state params opt_state) : Prop := mkLoopInv {
  inv_length : length (ts_history st) = k;
  inv_best : ts_best_val_loss st = running_best (val_losses st);
  inv_saved : forall i r, ts_history st !! i = Some r ->
    ep_saved r = flt (ep_val_loss r) (running_best (take i (val_losses st)));
  inv_record : forall i r, ts_history st !! i = Some r ->
    exists l,
      last (ep_val_losses r) = Some l /\
      ep_val_loss r = fmean (ep_val_losses r) /\
      ep_printed r =
        if decide ((i + 1) mod 100 = 0)
        then Some (mkProgressLine (i + 1) epochs l (ep_val_loss r))
        else None;
  inv_stdout : ts_stdout st = omap ep_printed (ts_history st);
  inv_files :
    (ts_best_val_loss st = PosInf /\ ts_files st = files0) \/
    (exists i r,
       ts_history st !! i = Some r /\
       ep_val_loss r = ts_best_val_loss st /\
       flt (ts_best_val_loss st) PosInf = true /\
       ts_files st = <[model_path := ep_state_dict r]> files0)
}.

(** The checkpoint claim in the words of the specification: after the
    epochs run so far, [best_val_loss] is the minimum of their mean
    validation losses and the checkpoint file holds the parameters of an
    epoch with that loss. *)
Definition tracks_minimum {params opt_state : Type} (model_path : string)
    (st : @train_state params opt_state) : Prop :=
  list_minimum (ts_best_val_loss st) (val_losses st) /\
  exists i r,
    ts_history st !! i = Some r /\
    ep_val_loss r = ts_best_val_loss st /\
    ts_files st !! model_path = Some (ep_state_dict r).

(** ** Statements of the evaluation *)

(** The figure [evaluate_model] draws: the scatter of actual against
    predicted test values with the identity line and the labels. *)
Definition actual_vs_predicted (y_test y_test_pred : tensor) : list plot_cmd :=
  [Scatter y_test y_test_pred;
   Plot [series_min y_test; series_max y_test]
        [series_min y_test; series_max y_test] "r--";
   Xlabel "Actual Values";
   Ylabel "Predicted Values";
   Title "Actual vs. Predicted Values"].

(** A forward pass ran in inference mode and without gradient tracking. *)
Definition inference_pass (fp : forward_pass) : Prop :=
  fp_training fp = false /\ fp_grad_enabled fp = false.

(** Simple instances for running the evaluation: a model that predicts the
    first feature plus one in training mode and the first feature itself in
    inference mode, and a metric that is the mean of the differences. *)
Definition first_feature_model (training : bool) (X : list tensor) : tensor :=
  map (fun r : tensor =>
         let x := default NaN (r !! 0%nat) in
         if training then fadd x (Fin 1) else x) X.

Definition mean_difference (y_true y_pred : tensor) : result float :=
  if decide (length y_true = length y_pred)
  then Ok (fmean (zip_with fsub y_true y_pred))
  else Raise ValueError.

(** A world in which the model is in training mode, gradient tracking is
    on, nothing has been printed and no directory exists. *)
Definition fresh_world : world :=
  mkWorld true true [] [] ∅ ∅ [].

(** ** Statements of permutation importance *)

(** What iteration [col] of the loop contributes, for the original rows
    [X]: the model saw [M], which is [X] with column [col] replaced by a
    permutation of itself, and the importance is the score on [M] minus
    the baseline. *)
Definition column_result (model : list tensor -> tensor)
    (metric : tensor -> tensor -> result float) (y_test : tensor)
    (X : list tensor) (baseline_score : float)
    (col : nat) (importance : float) (M : list tensor) : Prop :=
  (forall i, i <> col -> get_col i M = get_col i X) /\
  get_col col M ≡ₚ get_col col X /\
  exists shuffled_score,
    metric y_test (model M) = Ok shuffled_score /\
    importance = fsub shuffled_score baseline_score.

(** Simple instances for running it: a model that predicts the sum of the
    features of each row, the mean squared error as the metric, and a
    shuffle that reverses the vector (the generator state counts the
    calls). *)
Definition row_sum_model (X : list tensor) : tensor := map fsum X.

Definition mse_metric (y_true y_pred : tensor) : result float :=
  Ok (fmean (zip_with (fun t p => fpow2 (fsub t p)) y_true y_pred)).

Definition reversing_shuffle (g : nat) (t : tensor) : nat * tensor :=
  (S g, rev t).

Definition sample_matrix : ndarray :=
  mkNdarray 2 [[Fin 1; Fin 10]; [Fin 2; Fin 20]; [Fin 3; Fin 30]].

Definition sample_store : store := {[ 1%positive := sample_matrix ]}.

(** ** Statements of the distribution overlap *)

(** [x] is not in the closed range from [first_edge] to [last_edge]. *)
Definition outside_range (first_edge last_edge : Q) (x : float) : Prop :=
  flt x (Fin first_edge) = true \/ fle x (Fin last_edge) = false.

(** [x] lies in the closed range from [first_edge] to [last_edge]. *)
Definition inside_range (first_edge last_edge : Q) (x : float) : Prop :=
  flt x (Fin first_edge) = false /\ fle x (Fin last_edge) = true.

(** The smaller of two rationals, chosen as [np.minimum] chooses. *)
Definition Qminimum (a b : Q) : Q := if Qltb b a then b else a.

Definition Qsum (l : list Q) : Q := fold_left Qplus l 0%Q.

(** The density of a bin with count [c] and width [w] in a histogram of
    [total] values, as a rational. *)
Definition bin_density (total : Z) (c : Z) (w : Q) : Q :=
  (inject_Z c / w / inject_Z total)%Q.

(** The last element of a non-empty list of integers. *)
Definition Zlast (x : Z) (l : list Z) : Z := List.last l x.

(** The [i]-th point of [np.linspace(start, stop, num + 1)] before the
    last one. *)
Definition linspace_point (start stop : Q) (num i : nat) : Q :=
  (inject_Z (Z.of_nat i) * ((stop - start) / inject_Z (Z.of_nat num))
   + start)%Q.

(** * Properties *)

(** ** Order and arithmetic of floats *)

Lemma Qltb_lt (x y : Q) : Qltb x y = true <-> (x < y)%Q.
Proof. unfold Qltb, Qlt. apply Z.ltb_lt. Qed.

Lemma Qleb_le (x y : Q) : Qleb x y = true <-> (x <= y)%Q.
Proof. unfold Qleb, Qle. apply Z.leb_le. Qed.

Lemma Qltb_nlt (x y : Q) : Qltb x y = false <-> (y <= x)%Q.
Proof. unfold Qltb, Qle. rewrite Z.ltb_ge. reflexivity. Qed.

Lemma Qleb_nle (x y : Q) : Qleb x y = false <-> (y < x)%Q.
Proof. unfold Qleb, Qlt. rewrite Z.leb_gt. reflexivity. Qed.

Lemma flt_irrefl (x : float) : flt x x = false.
Proof.
  destruct x as [| |q|]; simpl; try reflexivity.
  apply Qltb_nlt. apply Qle_refl.
Qed.

Lemma flt_trans (x y z : float) :
  flt x y = true -> flt y z = true -> flt x z = true.
Proof.
  destruct x as [| |a|], y as [| |b|], z as [| |c|]; simpl;
    try discriminate; try reflexivity.
  rewrite !Qltb_lt. apply Qlt_trans.
Qed.

Lemma flt_asym (x y : float) : flt x y = true -> flt y x = false.
Proof.
  destruct x as [| |a|], y as [| |b|]; simpl; try discriminate;
    try reflexivity.
  rewrite Qltb_lt, Qltb_nlt. apply Qlt_le_weak.
Qed.

Lemma fle_flt_false (x y : float) : fle x y = true -> flt y x = false.
Proof.
  destruct x as [| |a|], y as [| |b|]; simpl; try discriminate;
    try reflexivity.
  rewrite Qleb_le, Qltb_nlt. trivial.
Qed.

Lemma flt_fle (x y : float) : flt x y = true -> fle x y = true.
Proof.
  destruct x as [| |a|], y as [| |b|]; simpl; try discriminate;
    try reflexivity.
  rewrite Qltb_lt, Qleb_le. apply Qlt_le_weak.
Qed.

(** Values that are not [nan] are totally ordered. *)
Lemma flt_false_fle (x y : float) :
  is_nan x = false -> is_nan y = false -> flt x y = false -> fle y x = true.
Proof.
  destruct x as [| |a|], y as [| |b|]; simpl; try discriminate;
    try reflexivity.
  rewrite Qltb_nlt, Qleb_le. trivial.
Qed.

Lemma fle_refl (x : float) : is_nan x = false -> fle x x = true.
Proof.
  destruct x as [| |a|]; simpl; try discriminate; try reflexivity.
  intros _. apply Qleb_le, Qle_refl.
Qed.

Lemma fle_trans (x y z : float) :
  fle x y = true -> fle y z = true -> fle x z = true.
Proof.
  destruct x as [| |a|], y as [| |b|], z as [| |c|]; simpl;
    try discriminate; try reflexivity.
  rewrite !Qleb_le. apply Qle_trans.
Qed.

Lemma flt_fle_trans (x y z : float) :
  flt x y = true -> fle y z = true -> flt x z = true.
Proof.
  destruct x as [| |a|], y as [| |b|], z as [| |c|]; simpl;
    try discriminate; try reflexivity.
  rewrite !Qltb_lt, Qleb_le. apply Qlt_le_trans.
Qed.

Lemma flt_not_nan_l (x y : float) : flt x y = true -> is_nan x = false.
Proof. destruct x, y; simpl; congruence. Qed.

Lemma flt_not_nan_r (x y : float) : flt x y = true -> is_nan y = false.
Proof. destruct x, y; simpl; congruence. Qed.

Lemma Qmult_1_l_eq (q : Q) : (1 * q)%Q = q.
Proof. destruct q as [n d]. unfold Qmult. simpl. destruct n; reflexivity. Qed.

Lemma fmul_1_l (x : float) : fmul (Fin 1) x = x.
Proof.
  destruct x as [| |q|]; simpl; try reflexivity.
  f_equal. apply Qmult_1_l_eq.
Qed.

(** ** The weighted loss *)

Lemma broadcast2_same_length (f : float -> float -> float) (a b : tensor) :
  length a = length b -> broadcast2 f a b = Some (zip_with f a b).
Proof.
  intros Hlen. unfold broadcast2.
  destruct a as [|x [|x' a]], b as [|y [|y' b]]; simpl in *;
    try discriminate; try reflexivity.
  rewrite decide_True by congruence. reflexivity.
Qed.

(** The nested [torch.where] of line 17 picks [weight_of] elementwise. *)
Lemma weights_map (self : WeightedMSELoss) (targets : tensor) :
  weights self targets = map (weight_of self) targets.
Proof.
  unfold weights, where_st, where_ss, weight_of.
  induction targets as [|t targets IH]; simpl; [reflexivity|].
  f_equal. exact IH.
Qed.

Lemma weights_lookup (self : WeightedMSELoss) (targets : tensor) i :
  weights self targets !! i = weight_of self <$> targets !! i.
Proof. rewrite weights_map. apply list_lookup_fmap. Qed.

(** The band rule without any assumption, read as a cascade: the high
    band is tested first. *)
Lemma weight_of_cascade (self : WeightedMSELoss) (t : float) :
  (fgt t (to_float (high_threshold self)) = true ->
     weight_of self t = to_float (high_weight self)) /\
  (fgt t (to_float (high_threshold self)) = false ->
   flt t (to_float (low_threshold self)) = true ->
     weight_of self t = to_float (very_low_weight self)) /\
  (fgt t (to_float (high_threshold self)) = false ->
   flt t (to_float (low_threshold self)) = false ->
     weight_of self t = to_float (low_weight self)).
Proof.
  unfold weight_of. repeat split; intros; repeat
    match goal with H : _ = _ |- _ => rewrite H end; reflexivity.
Qed.




Lemma zip_with_weights (self : WeightedMSELoss) (outputs targets : tensor) :
  zip_with fmul (map (weight_of self) targets)
    (map fpow2 (zip_with fsub outputs targets))
  = weighted_squared_errors self outputs targets.
Proof.
  unfold weighted_squared_errors.
  revert targets; induction outputs as [|o outputs IH];
    intros [|t targets]; simpl; try reflexivity.
  f_equal. apply IH.
Qed.

Lemma forward_same_length (self : WeightedMSELoss) (outputs targets : tensor) :
  length outputs = length targets ->
  forward self outputs targets
  = Some (fmean (weighted_squared_errors self outputs targets)).
Proof.
  intros Hlen. unfold forward.
  rewrite (broadcast2_same_length _ _ _ Hlen). simpl.
  rewrite weights_map, broadcast2_same_length.
  - simpl. rewrite zip_with_weights. reflexivity.
  - rewrite !length_map, length_zip_with. lia.
Qed.

Lemma weight_of_unit (self : WeightedMSELoss) (t : float) :
  unit_weights self -> weight_of self t = Fin 1.
Proof.
  intros (Hh & Hl & Hv). unfold weight_of.
  rewrite Hh, Hl, Hv. repeat case_match; reflexivity.
Qed.



(** C10.  The criterion that [train_model] builds from explicit arguments
    and [WeightedMSELoss()] built from the defaults give the same loss on
    every pair of predictions and targets. *)
Theorem train_criterion_is_default (outputs targets : tensor) :
  weights train_criterion targets = weights WeightedMSELoss_default targets /\
  forward train_criterion outputs targets
  = forward WeightedMSELoss_default outputs targets.
Proof. split; reflexivity. Qed.

(** ** The running minimum *)

Lemma fle_PosInf (x : float) : is_nan x = false -> fle x PosInf = true.
Proof. destruct x; simpl; congruence. Qed.

Lemma running_best_snoc (vs : list float) (v : float) :
  running_best (vs ++ [v])
  = if flt v (running_best vs) then v else running_best vs.
Proof. unfold running_best. rewrite fold_left_app. reflexivity. Qed.

Lemma running_best_minimum (vs : list float) :
  running_minimum (running_best vs) vs.
Proof.
  induction vs as [|v vs IH] using rev_ind.
  - repeat split; [left; reflexivity|].
    intros u Hu. apply elem_of_nil in Hu as [].
  - destruct IH as (Hnan & Hmem & Hle). rewrite running_best_snoc.
    destruct (flt v (running_best vs)) eqn:Hlt.
    + split; [eapply flt_not_nan_l, Hlt|].
      split; [right; apply elem_of_app; right; now apply list_elem_of_singleton|].
      intros u Hu Hun. apply elem_of_app in Hu as [Hu|Hu].
      * apply flt_fle. eapply flt_fle_trans; [exact Hlt|]. now apply Hle.
      * apply list_elem_of_singleton in Hu as ->. now apply fle_refl.
    + split; [exact Hnan|].
      split; [destruct Hmem as [->|Hmem]; [now left|right];
              apply elem_of_app; now left|].
      intros u Hu Hun. apply elem_of_app in Hu as [Hu|Hu]; [now apply Hle|].
      apply list_elem_of_singleton in Hu as ->.
      now apply flt_false_fle.
Qed.

(** Comparing with the running minimum is comparing with [+inf] and with
    every earlier loss that is a number. *)
Lemma flt_running_best (v : float) (vs : list float) :
  flt v (running_best vs) = true <-> improves_on v vs.
Proof.
  destruct (running_best_minimum vs) as (Hnan & Hmem & Hle). split.
  - intros Hlt. split.
    + eapply flt_fle_trans; [exact Hlt|]. now apply fle_PosInf.
    + intros u Hu Hun. eapply flt_fle_trans; [exact Hlt|]. now apply Hle.
  - intros [Hinf Hall]. destruct Hmem as [->|Hmem]; [exact Hinf|].
    now apply Hall.
Qed.

Lemma improves_on_finite (v : float) (vs : list float) :
  is_finite v = true -> Forall (fun u => is_finite u = true) vs ->
  improves_on v vs <-> below_all_prior v vs.
Proof.
  intros Hv Hvs. rewrite Forall_forall in Hvs. split.
  - intros [_ Hall] u Hu. apply Hall; [exact Hu|].
    specialize (Hvs u Hu). now destruct u.
  - intros Hall. split; [now destruct v|].
    intros u Hu _. now apply Hall.
Qed.

(** ** Batching *)

(** The fuel of [chunks] is enough: the batches of a loader hold every row
    of the dataset, in order. *)
Lemma chunks_fuel_concat {A} (n : nat) : forall (fuel : nat) (l : list A),
  0 < n -> length l <= fuel -> concat (chunks_fuel fuel n l) = l.
Proof.
  induction fuel as [|fuel IH]; intros l Hn Hlen.
  - destruct l; [reflexivity|simpl in Hlen; lia].
  - destruct l as [|x l]; [reflexivity|].
    cbn [chunks_fuel concat]. rewrite IH.
    + apply take_drop.
    + exact Hn.
    + rewrite length_drop. simpl in *. lia.
Qed.

Lemma chunks_concat {A} (n : nat) (l : list A) :
  0 < n -> concat (chunks n l) = l.
Proof. intros Hn. now apply chunks_fuel_concat. Qed.

(** ** The training loop *)

Section train_model_facts.
Context {params opt_state : Type}.
Variable model_call : bool -> params -> list tensor -> tensor.
Variable Adam : params -> float -> opt_state.
Variable optimizer_step : opt_state -> params -> batch -> opt_state * params.
Variable shuffle : nat -> list (tensor * float) -> list (tensor * float).

Lemma val_batches_inv training p bs : forall val_loss loss seen s loss' seen',
  val_batches model_call training p val_loss loss seen bs
    = Ok (s, loss', seen') ->
  exists ls,
    seen' = seen ++ ls /\ length ls = length bs /\
    s = fold_left fadd ls val_loss /\
    loss' = match last ls with Some l => Some l | None => loss end.
Proof.
  induction bs as [|b bs IH]; intros val_loss loss seen s loss' seen' H.
  - simpl in H. injection H as <- <- <-. exists [].
    rewrite app_nil_r. repeat split.
  - simpl in H. unfold mbind, result_bind in H.
    destruct (of_option ShapeError _) as [l|] eqn:El; [|discriminate H].
    apply IH in H as (ls & -> & Hlen & -> & ->).
    exists (l :: ls). rewrite <- app_assoc. simpl.
    repeat split; [now rewrite Hlen|].
    simpl. destruct ls as [|l' ls]; [reflexivity|].
    change (last (l :: l' :: ls)) with (last (l' :: ls)).
    destruct (last (l' :: ls)) eqn:E; [reflexivity|].
    apply last_None in E. discriminate E.
Qed.

Lemma train_batches_inv training bs : forall m loss seen m' loss' seen',
  train_batches model_call optimizer_step training m loss seen bs
    = Ok (m', loss', seen') ->
  exists ls,
    seen' = seen ++ ls /\ length ls = length bs /\
    loss' = match last ls with Some l => Some l | None => loss end.
Proof.
  induction bs as [|b bs IH]; intros m loss seen m' loss' seen' H.
  - simpl in H. injection H as <- <- <-. exists [].
    rewrite app_nil_r. repeat split.
  - simpl in H. unfold mbind, result_bind in H.
    destruct (train_batch _ _ _ _ _) as [[[p o] l]|] eqn:El; [|discriminate H].
    apply IH in H as (ls & -> & Hlen & ->).
    exists (l :: ls). rewrite <- app_assoc. simpl.
    repeat split; [now rewrite Hlen|].
    simpl. destruct ls as [|l' ls]; [reflexivity|].
    change (last (l :: l' :: ls)) with (last (l' :: ls)).
    destruct (last (l' :: ls)) eqn:E; [reflexivity|].
    apply last_None in E. discriminate E.
Qed.

Variables train_dataset val_dataset : list (tensor * float).
Variable model_path : string.
Variable epochs : nat.

(** What one iteration of the epoch loop does to the state. *)
Lemma run_epoch_inv epoch (st st' : @train_state params opt_state) :
  run_epoch model_call optimizer_step shuffle train_dataset val_dataset
    model_path epochs epoch st = Ok st' ->
  exists p tl vl l v,
    last vl = Some l /\
    v = fmean vl /\
    let improved := flt v (ts_best_val_loss st) in
    let printed :=
      if decide ((epoch + 1) mod 100 = 0)
      then Some (mkProgressLine (epoch + 1) epochs l v) else None in
    ts_params st' = p /\
    ts_best_val_loss st' = (if improved then v else ts_best_val_loss st) /\
    ts_files st'
      = (if improved then <[model_path := p]> (ts_files st)
         else ts_files st) /\
    ts_stdout st' = ts_stdout st ++ option_list printed /\
    ts_history st'
      = ts_history st ++ [mkEpochRecord tl vl v p improved printed].
Proof.
  unfold run_epoch. intros H. unfold mbind, result_bind in H.
  destruct (train_batches _ _ _ _ _ _ _) as [[[[p o] loss] tl]|] eqn:Et;
    [|discriminate H].
  destruct (val_batches _ _ _ _ _ _ _) as [[[s loss'] vl]|] eqn:Ev;
    [|discriminate H].
  apply val_batches_inv in Ev as (ls & Hseen & Hlen & -> & ->).
  simpl in Hseen. subst vl.
  destruct (of_option ZeroDivisionError _) as [v|] eqn:Ediv;
    [|discriminate H].
  unfold py_truediv in Ediv.
  destruct (length (DataLoader id val_dataset)) as [|n] eqn:En;
    [discriminate Ediv|].
  simpl in Ediv. injection Ediv as <-.
  destruct ls as [|l0 ls]; [discriminate Hlen|].
  destruct (last (l0 :: ls)) as [l|] eqn:Elast.
  2:{ apply last_None in Elast. discriminate Elast. }
  exists p, tl, (l0 :: ls), l. eexists. split; [exact Elast|].
  split.
  { unfold fmean, fsum. rewrite Hlen. reflexivity. }
  destruct (decide ((epoch + 1) mod 100 = 0)); simpl in H;
    injection H as <-; simpl; repeat split.
Qed.

Lemma val_losses_snoc (st st' : @train_state params opt_state) r :
  ts_history st' = ts_history st ++ [r] ->
  val_losses st' = val_losses st ++ [ep_val_loss r].
Proof. unfold val_losses. intros ->. now rewrite map_app. Qed.

Lemma run_epoch_preserves files0 k st st' :
  loop_inv model_path epochs files0 k st ->
  run_epoch model_call optimizer_step shuffle train_dataset val_dataset
    model_path epochs k st = Ok st' ->
  loop_inv model_path epochs files0 (S k) st'.
Proof.
  intros [Hlen Hbest Hsaved Hrec Hout Hfiles] Hrun.
  apply run_epoch_inv in Hrun
    as (p & tl & vl & l & v & Hlast & Hv & Hp & Hb & Hf & Ho & Hh).
  pose proof (val_losses_snoc _ _ _ Hh) as Hvs. simpl in Hvs.
  assert (Hvlen : length (val_losses st) = k).
  { unfold val_losses. now rewrite length_map. }
  split.
  - rewrite Hh, length_app, Hlen. simpl. lia.
  - rewrite Hb, Hvs, running_best_snoc, <- Hbest. reflexivity.
  - intros i r Hi. rewrite Hh in Hi. rewrite Hvs.
    apply lookup_app_Some in Hi as [Hi|[Hge Hi]].
    + pose proof (lookup_lt_Some _ _ _ Hi) as Hlt.
      rewrite take_app_le by lia. now apply Hsaved.
    + rewrite Hlen in Hge, Hi.
      apply list_lookup_singleton_Some in Hi as [Hi <-].
      replace i with k by lia. simpl.
      rewrite take_app_length' by lia. now rewrite Hbest.
  - intros i r Hi. rewrite Hh in Hi.
    apply lookup_app_Some in Hi as [Hi|[Hge Hi]]; [now apply Hrec|].
    rewrite Hlen in Hge, Hi.
    apply list_lookup_singleton_Some in Hi as [Hi <-].
    replace i with k by lia. simpl. exists l. repeat split; assumption.
  - rewrite Ho, Hh, omap_app, Hout. simpl.
    destruct (decide ((k + 1) mod 100 = 0)); reflexivity.
  - rewrite Hb, Hf. destruct (flt v (ts_best_val_loss st)) eqn:Hlt.
    + right. exists k. eexists. split.
      { rewrite Hh, lookup_app_r by lia.
        rewrite Hlen, Nat.sub_diag. reflexivity. }
      simpl. split; [reflexivity|]. split.
      { rewrite Hbest in Hlt.
        apply flt_running_best in Hlt as [Hinf _]. exact Hinf. }
      destruct Hfiles as [[_ ->]|(i & r & _ & _ & _ & ->)];
        [reflexivity|apply insert_insert_eq].
    + destruct Hfiles as [Hfiles|(i & r & Hi & Hr)]; [now left|].
      right. exists i, r. split; [|exact Hr].
      rewrite Hh. apply lookup_app_l_Some. exact Hi.
Qed.

Lemma train_loop_inv files0 k : forall st0 st,
  loop_inv model_path epochs files0 0 st0 ->
  train_loop model_call optimizer_step shuffle train_dataset val_dataset
    model_path epochs k st0 = Ok st ->
  loop_inv model_path epochs files0 k st.
Proof.
  induction k as [|k IH]; intros st0 st H0 Hrun; simpl in Hrun.
  - now injection Hrun as <-.
  - unfold mbind, result_bind in Hrun.
    destruct (train_loop _ _ _ _ _ _ _ _ _) as [st1|] eqn:E1;
      [|discriminate Hrun].
    eapply run_epoch_preserves; [|exact Hrun]. eapply IH; eauto.
Qed.

(** The loop of a longer run passes through the states of the shorter
    ones. *)
Lemma train_loop_S k st0 st' :
  train_loop model_call optimizer_step shuffle train_dataset val_dataset
    model_path epochs (S k) st0 = Ok st' ->
  exists st,
    train_loop model_call optimizer_step shuffle train_dataset val_dataset
      model_path epochs k st0 = Ok st /\
    run_epoch model_call optimizer_step shuffle train_dataset val_dataset
      model_path epochs k st = Ok st'.
Proof.
  simpl. unfold mbind, result_bind.
  destruct (train_loop _ _ _ _ _ _ _ _ _) as [st|]; [|discriminate].
  intros H. now exists st.
Qed.
End train_model_facts.

Lemma initial_state_inv {params opt_state : Type}
    (Adam : params -> float -> opt_state) model training learning_rate
    (files : gmap string params) model_path epochs :
  loop_inv model_path epochs files 0
    (initial_state Adam model training learning_rate files).
Proof.
  split; simpl; try reflexivity.
  - intros i r Hi. rewrite lookup_nil in Hi. discriminate Hi.
  - intros i r Hi. rewrite lookup_nil in Hi. discriminate Hi.
  - left. split; reflexivity.
Qed.

(** Every state [train_model] passes through satisfies the invariant. *)
Lemma train_model_upto_inv {params opt_state : Type}
    (model_call : bool -> params -> list tensor -> tensor)
    (Adam : params -> float -> opt_state)
    (optimizer_step : opt_state -> params -> batch -> opt_state * params)
    (shuffle : nat -> list (tensor * float) -> list (tensor * float))
    model training X_train y_train X_val y_val epochs learning_rate
    model_path files k st :
  train_model_upto model_call Adam optimizer_step shuffle model training
    X_train y_train X_val y_val epochs learning_rate model_path files k
    = Ok st ->
  loop_inv model_path epochs files k st.
Proof.
  unfold train_model_upto. intros H. unfold mbind, result_bind in H.
  destruct (TensorDataset X_train y_train) as [dt|]; [|discriminate H].
  destruct (TensorDataset X_val y_val) as [dv|]; [|discriminate H].
  eapply train_loop_inv; [|exact H]. apply initial_state_inv.
Qed.

Lemma train_model_upto_S {params opt_state : Type}
    (model_call : bool -> params -> list tensor -> tensor)
    (Adam : params -> float -> opt_state)
    (optimizer_step : opt_state -> params -> batch -> opt_state * params)
    (shuffle : nat -> list (tensor * float) -> list (tensor * float))
    model training X_train y_train X_val y_val epochs learning_rate
    model_path files k st st' :
  train_model_upto model_call Adam optimizer_step shuffle model training
    X_train y_train X_val y_val epochs learning_rate model_path files k
    = Ok st ->
  train_model_upto model_call Adam optimizer_step shuffle model training
    X_train y_train X_val y_val epochs learning_rate model_path files (S k)
    = Ok st' ->
  exists train_dataset val_dataset,
    run_epoch model_call optimizer_step shuffle train_dataset val_dataset
      model_path epochs k st = Ok st'.
Proof.
  unfold train_model_upto. intros H H'. unfold mbind, result_bind in H, H'.
  destruct (TensorDataset X_train y_train) as [dt|]; [|discriminate H].
  destruct (TensorDataset X_val y_val) as [dv|]; [|discriminate H].
  apply train_loop_S in H' as (st1 & H1 & Hstep).
  rewrite H in H1. injection H1 as <-. now exists dt, dv.
Qed.

(** The flags recorded in the history decide [saved_epochs]. *)
Lemma saved_epochs_4 {params opt_state : Type}
    (st : @train_state params opt_state) r0 r1 r2 r3 :
  ts_history st = [r0; r1; r2; r3] ->
  ep_saved r0 = true -> ep_saved r1 = true ->
  ep_saved r2 = false -> ep_saved r3 = true ->
  saved_epochs st = [1; 2; 4].
Proof.
  intros Hh H0 H1 H2 H3. unfold saved_epochs. rewrite Hh. simpl.
  rewrite H0, H1, H2, H3. reflexivity.
Qed.

Lemma feq_Fin_inv (x : float) (q : Q) :
  feq x (Fin q) -> exists a, x = Fin a /\ (a == q)%Q.
Proof. destruct x as [| |a|]; simpl; try tauto. intros H. now exists a. Qed.

(** C1 (as amended).  In a run of [train_model], the checkpoint file is
    written at an epoch if and only if that epoch's mean validation loss is
    strictly less than [+inf] and than every prior epoch's mean validation
    loss that is a number; when all the losses are finite this is: if and
    only if it is strictly less than every prior epoch's loss, the first
    epoch always writing.  For the losses 5, 3, 4, 2 the file is written at
    epochs 1, 2 and 4 and not at epoch 3. *)
Theorem checkpoint_written_iff_improvement {params opt_state : Type}
    (model_call : bool -> params -> list tensor -> tensor)
    (Adam : params -> float -> opt_state)
    (optimizer_step : opt_state -> params -> batch -> opt_state * params)
    (shuffle : nat -> list (tensor * float) -> list (tensor * float))
    model training X_train y_train X_val y_val epochs learning_rate
    model_path files st :
  train_model model_call Adam optimizer_step shuffle model training
    X_train y_train X_val y_val epochs learning_rate model_path files
    = Ok st ->
  (forall i r, ts_history st !! i = Some r ->
     (ep_saved r = true <->
      improves_on (ep_val_loss r) (take i (val_losses st)))) /\
  (Forall (fun v => is_finite v = true) (val_losses st) ->
   forall i r, ts_history st !! i = Some r ->
     (ep_saved r = true <->
      below_all_prior (ep_val_loss r) (take i (val_losses st)))) /\
  (Forall2 feq (val_losses st) [Fin 5; Fin 3; Fin 4; Fin 2] ->
   saved_epochs st = [1; 2; 4]).
Proof.
  intros Hrun. apply train_model_upto_inv in Hrun.
  destruct Hrun as [Hlen Hbest Hsaved _ _ _].
  assert (Hiff : forall i r, ts_history st !! i = Some r ->
            (ep_saved r = true <->
             improves_on (ep_val_loss r) (take i (val_losses st)))).
  { intros i r Hi. rewrite (Hsaved i r Hi). apply flt_running_best. }
  split; [exact Hiff|]. split.
  - intros Hfin i r Hi. rewrite (Hiff i r Hi).
    rewrite Forall_forall in Hfin. apply improves_on_finite.
    + apply Hfin. unfold val_losses.
      apply list_elem_of_fmap. exists r. split; [reflexivity|].
      apply list_elem_of_lookup. now exists i.
    + apply Forall_forall. intros u Hu. apply Hfin.
      apply elem_of_take in Hu as (j & Hj & _).
      apply list_elem_of_lookup. now exists j.
  - intros Hvs. unfold val_losses in *.
    destruct (ts_history st) as [|r0 [|r1 [|r2 [|r3 [|r4 h]]]]] eqn:Hh;
      simpl in Hvs;
      try (apply Forall2_length in Hvs; discriminate Hvs).
    pose proof (Hsaved 0 r0 eq_refl) as S0.
    pose proof (Hsaved 1 r1 eq_refl) as S1.
    pose proof (Hsaved 2 r2 eq_refl) as S2.
    pose proof (Hsaved 3 r3 eq_refl) as S3.
    simpl in S0, S1, S2, S3. unfold running_best in S0, S1, S2, S3.
    simpl in S0, S1, S2, S3.
    apply Forall2_cons in Hvs as [E0 Hvs].
    apply Forall2_cons in Hvs as [E1 Hvs].
    apply Forall2_cons in Hvs as [E2 Hvs].
    apply Forall2_cons in Hvs as [E3 _].
    apply feq_Fin_inv in E0 as (a0 & E0 & Q0).
    apply feq_Fin_inv in E1 as (a1 & E1 & Q1).
    apply feq_Fin_inv in E2 as (a2 & E2 & Q2).
    apply feq_Fin_inv in E3 as (a3 & E3 & Q3).
    rewrite E0, ?E1, ?E2, ?E3 in *. simpl in S0, S1, S2, S3.
    assert (L10 : Qltb a1 a0 = true) by (apply Qltb_lt; lra).
    rewrite L10 in *. simpl in S2, S3.
    assert (L21 : Qltb a2 a1 = false) by (apply Qltb_nlt; lra).
    rewrite L21 in *. simpl in S3.
    assert (L31 : Qltb a3 a1 = true) by (apply Qltb_lt; lra).
    rewrite L31 in *.
    eapply saved_epochs_4; eauto.
Qed.

Lemma checkpoint_written_iff_improvement_witness :
  match replay_run outputs_5_3_4_2 4 with
  | Ok st => saved_epochs st = [1; 2; 4]
  | Raise _ => False
  end.
Proof.
  pose proof (checkpoint_written_iff_improvement
                (replay_model (repeat [Fin 5] 4) outputs_5_3_4_2)
                (fun _ _ => tt) replay_step (fun _ rows => rows)
                0%nat true [[Fin 0]] [Fin 5]
                [[Fin 0]; [Fin 1]; [Fin 2]; [Fin 3]]
                [Fin 5; Fin 5; Fin 5; Fin 5]
                4 (Fin (1 # 1000)) "models/best_model.pth" ∅) as H.
  fold (replay_run outputs_5_3_4_2 4) in H.
  destruct (replay_run outputs_5_3_4_2 4) as [st|e] eqn:E.
  - vm_compute in E. injection E as <-.
    destruct (H _ eq_refl) as (_ & _ & H3). apply H3.
    repeat constructor.
  - vm_compute in E. discriminate E.
Defined.

(** C1 (as stated) fails when the first epoch's mean validation loss is
    [+inf]: no prior loss exists, so the loss is below every prior one, but
    [inf < inf] is false and nothing is written. *)
Lemma checkpoint_not_written_first_epoch_inf :
  exists st r,
    replay_run outputs_inf 1 = Ok st /\
    ts_history st !! 0%nat = Some r /\
    ep_val_loss r = PosInf /\
    below_all_prior (ep_val_loss r) (take 0 (val_losses st)) /\
    ep_saved r = false /\
    ts_files st !! "models/best_model.pth" = None.
Proof.
  destruct (replay_run outputs_inf 1) as [st|e] eqn:E;
    vm_compute in E; [|discriminate E].
  injection E as <-. eexists. eexists.
  split; [reflexivity|]. split; [reflexivity|]. split; [reflexivity|].
  split; [|split; reflexivity].
  intros u Hu. apply elem_of_nil in Hu as [].
Qed.

Lemma finite_not_nan (x : float) : is_finite x = true -> is_nan x = false.
Proof. now destruct x. Qed.

(** C9 (as amended).  After every epoch of [train_model], [best_val_loss]
    is the minimum of [+inf] (its initial value) and the mean validation
    losses so far that are numbers, and it never increases from one epoch
    to the next.  Whenever it is below [+inf], the checkpoint file holds the
    parameters of an epoch whose loss is that minimum; otherwise the run has
    not touched the files.  When all the losses so far are finite and there
    is at least one, [best_val_loss] is their minimum and the checkpoint
    holds the parameters of an epoch achieving it. *)
Theorem best_val_loss_is_running_minimum {params opt_state : Type}
    (model_call : bool -> params -> list tensor -> tensor)
    (Adam : params -> float -> opt_state)
    (optimizer_step : opt_state -> params -> batch -> opt_state * params)
    (shuffle : nat -> list (tensor * float) -> list (tensor * float))
    model training X_train y_train X_val y_val epochs learning_rate
    model_path files k st :
  train_model_upto model_call Adam optimizer_step shuffle model training
    X_train y_train X_val y_val epochs learning_rate model_path files k
    = Ok st ->
  length (val_losses st) = k /\
  (k = 0 -> ts_best_val_loss st = PosInf) /\
  running_minimum (ts_best_val_loss st) (val_losses st) /\
  (flt (ts_best_val_loss st) PosInf = true ->
   exists i r,
     ts_history st !! i = Some r /\
     ep_val_loss r = ts_best_val_loss st /\
     ts_files st !! model_path = Some (ep_state_dict r)) /\
  (flt (ts_best_val_loss st) PosInf = false -> ts_files st = files) /\
  (k <> 0 -> Forall (fun v => is_finite v = true) (val_losses st) ->
   tracks_minimum model_path st) /\
  (forall st',
     train_model_upto model_call Adam optimizer_step shuffle model training
       X_train y_train X_val y_val epochs learning_rate model_path files
       (S k) = Ok st' ->
     fle (ts_best_val_loss st') (ts_best_val_loss st) = true).
Proof.
  intros Hrun. pose proof (train_model_upto_inv _ _ _ _ _ _ _ _ _ _ _ _ _ _ _
                             _ Hrun) as [Hlen Hbest _ _ _ Hfiles].
  pose proof (running_best_minimum (val_losses st)) as Hmin.
  rewrite <- Hbest in Hmin.
  assert (Hvlen : length (val_losses st) = k).
  { unfold val_losses. now rewrite length_map. }
  assert (Hfile : flt (ts_best_val_loss st) PosInf = true ->
            exists i r,
              ts_history st !! i = Some r /\
              ep_val_loss r = ts_best_val_loss st /\
              ts_files st !! model_path = Some (ep_state_dict r)).
  { intros Hlt. destruct Hfiles as [[Hb _]|(i & r & Hi & Hv & _ & Hf)].
    - rewrite Hb in Hlt. discriminate Hlt.
    - exists i, r. split; [exact Hi|]. split; [exact Hv|].
      rewrite Hf. apply lookup_insert_eq. }
  split; [exact Hvlen|]. split.
  { intros ->. rewrite Hbest.
    destruct (val_losses st); [reflexivity|discriminate Hvlen]. }
  split; [exact Hmin|]. split; [exact Hfile|]. split.
  { intros Hge. destruct Hfiles as [[_ Hf]|(i & r & _ & _ & Hlt & _)];
      [exact Hf|congruence]. }
  split.
  - intros Hk Hfin. rewrite Forall_forall in Hfin.
    destruct Hmin as (Hnan & Hmem & Hle).
    assert (Hin : ts_best_val_loss st ∈ val_losses st).
    { destruct Hmem as [Hinf|Hmem]; [|exact Hmem].
      destruct (val_losses st) as [|v vs] eqn:Hvs;
        [simpl in Hvlen; congruence|].
      assert (Hv : v ∈ v :: vs) by apply list_elem_of_here.
      pose proof (Hle v Hv (finite_not_nan _ (Hfin v Hv))) as Hlev.
      pose proof (Hfin v Hv) as Hfv. rewrite Hinf in Hlev.
      destruct v; discriminate. }
    split.
    + split; [exact Hin|]. intros u Hu.
      apply Hle; [exact Hu|]. apply finite_not_nan, Hfin, Hu.
    + apply Hfile. specialize (Hfin _ Hin).
      now destruct (ts_best_val_loss st).
  - intros st' Hrun'.
    destruct (train_model_upto_S _ _ _ _ _ _ _ _ _ _ _ _ _ _ _ _ _
                Hrun Hrun') as (dt & dv & Hstep).
    apply run_epoch_inv in Hstep
      as (p & tl & vl & l & v & _ & _ & _ & Hb & _).
    rewrite Hb. destruct (flt v (ts_best_val_loss st)) eqn:Hlt.
    + now apply flt_fle.
    + apply fle_refl. apply Hmin.
Qed.

Lemma best_val_loss_is_running_minimum_witness :
  match replay_run outputs_5_3_4_2 4 with
  | Ok st => tracks_minimum "models/best_model.pth" st
  | Raise _ => False
  end.
Proof.
  pose proof (best_val_loss_is_running_minimum
                (replay_model (repeat [Fin 5] 4) outputs_5_3_4_2)
                (fun _ _ => tt) replay_step (fun _ rows => rows)
                0%nat true [[Fin 0]] [Fin 5]
                [[Fin 0]; [Fin 1]; [Fin 2]; [Fin 3]]
                [Fin 5; Fin 5; Fin 5; Fin 5]
                4 (Fin (1 # 1000)) "models/best_model.pth" ∅ 4) as H.
  fold (train_model (replay_model (repeat [Fin 5] 4) outputs_5_3_4_2)
          (fun _ _ => tt) replay_step (fun _ rows => rows)
          0%nat true [[Fin 0]] [Fin 5]
          [[Fin 0]; [Fin 1]; [Fin 2]; [Fin 3]]
          [Fin 5; Fin 5; Fin 5; Fin 5]
          4 (Fin (1 # 1000)) "models/best_model.pth" ∅) in H.
  fold (replay_run outputs_5_3_4_2 4) in H.
  destruct (replay_run outputs_5_3_4_2 4) as [st|e] eqn:E.
  - vm_compute in E. injection E as <-.
    destruct (H _ eq_refl) as (_ & _ & _ & _ & _ & H6 & _). apply H6.
    + discriminate.
    + repeat constructor.
  - vm_compute in E. discriminate E.
Defined.

(** C9 (as stated) fails when the first epoch's mean validation loss is
    not a number: [nan < inf] is false, so [best_val_loss] stays [+inf],
    which is not one of the losses, and no checkpoint is written. *)
Lemma best_val_loss_not_minimum_nan :
  exists st,
    replay_run outputs_nan 1 = Ok st /\
    val_losses st = [NaN] /\
    ts_best_val_loss st = PosInf /\
    ts_files st !! "models/best_model.pth" = None /\
    ~ tracks_minimum "models/best_model.pth" st.
Proof.
  destruct (replay_run outputs_nan 1) as [st|e] eqn:E;
    vm_compute in E; [|discriminate E].
  injection E as <-. eexists.
  split; [reflexivity|]. split; [reflexivity|]. split; [reflexivity|].
  split; [reflexivity|].
  intros [[Hin _] _]. simpl in Hin.
  apply list_elem_of_singleton in Hin. discriminate Hin.
Qed.

(** What the progress lines carry, in every run: a line is printed exactly
    at the epochs whose number is a multiple of 100, and its [Loss] field
    is the criterion value of the last validation batch of that epoch
    (the validation loop rebinds the variable [loss] before line 64 reads
    it), next to the epoch's mean validation loss. *)
Lemma progress_lines_carry_validation_loss {params opt_state : Type}
    (model_call : bool -> params -> list tensor -> tensor)
    (Adam : params -> float -> opt_state)
    (optimizer_step : opt_state -> params -> batch -> opt_state * params)
    (shuffle : nat -> list (tensor * float) -> list (tensor * float))
    model training X_train y_train X_val y_val epochs learning_rate
    model_path files st :
  train_model model_call Adam optimizer_step shuffle model training
    X_train y_train X_val y_val epochs learning_rate model_path files
    = Ok st ->
  ts_stdout st = omap ep_printed (ts_history st) /\
  forall i r, ts_history st !! i = Some r ->
    ((i + 1) mod 100 <> 0 -> ep_printed r = None) /\
    ((i + 1) mod 100 = 0 ->
     exists l,
       last (ep_val_losses r) = Some l /\
       ep_printed r
       = Some (mkProgressLine (i + 1) epochs l (fmean (ep_val_losses r)))).
Proof.
  intros Hrun. apply train_model_upto_inv in Hrun.
  destruct Hrun as [_ _ _ Hrec Hout _].
  split; [exact Hout|]. intros i r Hi.
  destruct (Hrec i r Hi) as (l & Hlast & Hmean & Hpr). split.
  - intros Hne. rewrite Hpr. now rewrite decide_False.
  - intros He. exists l. split; [exact Hlast|].
    rewrite Hpr, decide_True by exact He. now rewrite <- Hmean.
Qed.

(** C6, evaluated on a run of 100 epochs in which every training batch
    has loss 0 and every validation batch has loss 1: the one line printed,
    at epoch 100, shows 1 as its [Loss], which is the loss of the last
    validation batch and not the loss 0 of the last training batch. *)
Theorem progress_line_shows_validation_loss :
  exists st r line t,
    two_faced_run 100 = Ok st /\
    ts_stdout st = [line] /\
    ts_history st !! 99%nat = Some r /\
    pl_epoch line = 100 /\
    last (ep_train_losses r) = Some t /\ feq t (Fin 0) /\
    last (ep_val_losses r) = Some (pl_loss line) /\
    feq (pl_loss line) (Fin 1) /\
    feq (pl_val_loss line) (Fin 1).
Proof.
  destruct (two_faced_run 100) as [st|e] eqn:E;
    vm_compute in E; [|discriminate E].
  injection E as <-.
  do 4 eexists.
  split; [reflexivity|]. split; [reflexivity|]. split; [reflexivity|].
  split; [reflexivity|]. split; [reflexivity|]. split; [reflexivity|].
  split; [reflexivity|]. split; reflexivity.
Qed.

(** ** Evaluation *)

(** Whatever the metrics do, every forward pass that [evaluate_model]
    makes runs after [model.eval()] and inside [torch.no_grad()], and the
    gradient mode is what it was when the function is left. *)
Lemma evaluate_model_passes
    (predict : bool -> list tensor -> tensor)
    (mean_squared_error : bool -> tensor -> tensor -> result float)
    (mean_absolute_error r2_score : tensor -> tensor -> result float)
    (X_test : table) (y_test : tensor) (X_train : table) (y_train : tensor)
    (w : world) :
  let w' := (evaluate_model predict mean_squared_error mean_absolute_error
               r2_score X_test y_test X_train y_train w).1 in
  w_passes w'
    = w_passes w ++ [mkForwardPass false false (table_values X_train);
                     mkForwardPass false false (table_values X_test)] /\
  w_training w' = false /\
  w_grad_enabled w' = w_grad_enabled w.
Proof.
  unfold evaluate_model, io_bind, io_modify, no_grad, call_model, io_lift,
    io_ret. simpl.
  repeat match goal with
  | |- context [match ?m with Ok _ => _ | Raise _ => _ end] =>
      match m with
      | context [match _ with _ => _ end] => fail 1
      | _ => destruct m; simpl
      end
  end; rewrite <- app_assoc; repeat split.
Qed.



(** ** Permutation importance *)

Lemma get_col_length col (rows : list tensor) :
  length (get_col col rows) = length rows.
Proof. unfold get_col. apply length_map. Qed.

Lemma set_col_length col vals (rows : list tensor) :
  length (set_col col vals rows) = length rows.
Proof. unfold set_col. apply length_imap. Qed.

Lemma get_col_lookup col (rows : list tensor) i :
  get_col col rows !! i = (fun r : tensor => default NaN (r !! col)) <$> rows !! i.
Proof. unfold get_col. apply list_lookup_fmap. Qed.

Lemma set_col_lookup col vals (rows : list tensor) i :
  set_col col vals rows !! i
  = (fun r : tensor =>
       match vals !! i with Some v => <[col := v]> r | None => r end)
    <$> rows !! i.
Proof. unfold set_col. apply list_lookup_imap. Qed.

(** Writing through the view of one column leaves the other columns as
    they are. *)
Lemma get_col_set_col_ne i col vals (rows : list tensor) :
  i <> col -> get_col i (set_col col vals rows) = get_col i rows.
Proof.
  intros Hne. apply list_eq. intros k.
  rewrite !get_col_lookup, set_col_lookup.
  destruct (rows !! k) as [r|]; simpl; [|reflexivity].
  destruct (vals !! k) as [v|]; [|reflexivity].
  rewrite list_lookup_insert_ne by congruence. reflexivity.
Qed.

Lemma get_col_set_col_eq col vals (rows : list tensor) :
  Forall (fun r : tensor => col < length r) rows ->
  length vals = length rows ->
  get_col col (set_col col vals rows) = vals.
Proof.
  intros Hwf Hlen. apply list_eq. intros k.
  rewrite get_col_lookup, set_col_lookup.
  destruct (rows !! k) as [r|] eqn:Hr; simpl.
  - pose proof (Forall_lookup_1 _ _ _ _ Hwf Hr) as Hcol.
    destruct (vals !! k) as [v|] eqn:Hv.
    + rewrite list_lookup_insert_eq by exact Hcol. reflexivity.
    + apply lookup_ge_None in Hv. apply lookup_lt_Some in Hr. lia.
  - apply lookup_ge_None in Hr. symmetry. apply lookup_ge_None. lia.
Qed.

(** Writing the saved column back restores the array. *)
Lemma set_col_restore col vals (rows : list tensor) :
  set_col col (get_col col rows) (set_col col vals rows) = rows.
Proof.
  apply list_eq. intros k.
  rewrite set_col_lookup, set_col_lookup, get_col_lookup.
  destruct (rows !! k) as [r|] eqn:Hr; simpl; [|reflexivity].
  f_equal.
  assert (Hback : <[col := default NaN (r !! col)]> r = r).
  { destruct (r !! col) as [x|] eqn:Hx; simpl.
    - now apply list_insert_id.
    - apply list_insert_ge. now apply lookup_ge_None. }
  destruct (vals !! k) as [v|]; [|exact Hback].
  rewrite list_insert_insert_eq. exact Hback.
Qed.

Section permutation_importance_facts.
Context {rng : Type}.
Variable model : list tensor -> tensor.
Variable metric : tensor -> tensor -> result float.
Variable np_random_shuffle : rng -> tensor -> rng * tensor.
Hypothesis shuffle_permutes :
  forall g t, (np_random_shuffle g t).2 ≡ₚ t.

Variable X_test_copy : loc.
Variable y_test : tensor.
Variable baseline_score : float.
Variable X : ndarray.
Hypothesis X_wf : wf_ndarray X.

(** One iteration: the store is the same before and after, and the
    model saw the copy with only column [col] shuffled. *)
Lemma perm_step_inv (s s' : perm_state) col :
  col < nd_cols X ->
  ps_store s !! X_test_copy = Some X ->
  perm_step model metric np_random_shuffle X_test_copy y_test
    baseline_score s col = Ok s' ->
  ps_store s' = ps_store s /\
  exists importance M,
    ps_importances s' = ps_importances s ++ [importance] /\
    ps_inputs s' = ps_inputs s ++ [M] /\
    column_result model metric y_test (nd_rows X) baseline_score
      col importance M.
Proof using shuffle_permutes X_wf.
  intros Hcol HX Hstep. unfold perm_step in Hstep.
  rewrite HX in Hstep. simpl in Hstep.
  pose proof (shuffle_permutes (ps_rng s) (get_col col (nd_rows X)))
    as Hperm.
  destruct (np_random_shuffle (ps_rng s) (get_col col (nd_rows X)))
    as [g shuffled] eqn:Hsh.
  simpl in Hperm. rewrite lookup_insert_eq in Hstep. simpl in Hstep.
  unfold mbind, result_bind in Hstep.
  destruct (metric y_test _) as [score|] eqn:Hscore; [|discriminate Hstep].
  injection Hstep as <-. simpl. split.
  - rewrite insert_insert_eq, set_col_restore.
    apply insert_id. rewrite HX. now destruct X.
  - eexists. eexists. split; [reflexivity|]. split; [reflexivity|].
    split; [|split].
    + intros i Hi. now apply get_col_set_col_ne.
    + rewrite get_col_set_col_eq; [exact Hperm| |].
      * eapply Forall_impl; [exact X_wf|]. simpl. intros r ->. exact Hcol.
      * rewrite (Permutation_length Hperm). apply get_col_length.
    + exists score. split; [exact Hscore|reflexivity].
Qed.

Lemma perm_loop_inv cols : forall s s',
  Forall (fun col => col < nd_cols X) cols ->
  ps_store s !! X_test_copy = Some X ->
  perm_loop model metric np_random_shuffle X_test_copy y_test
    baseline_score s cols = Ok s' ->
  ps_store s' = ps_store s /\
  exists importances inputs,
    ps_importances s' = ps_importances s ++ importances /\
    ps_inputs s' = ps_inputs s ++ inputs /\
    Forall3 (column_result model metric y_test (nd_rows X) baseline_score)
      cols importances inputs.
Proof using shuffle_permutes X_wf.
  induction cols as [|col cols IH]; intros s s' Hcols HX Hloop;
    simpl in Hloop.
  - injection Hloop as <-. split; [reflexivity|].
    exists [], []. rewrite !app_nil_r. repeat split. constructor.
  - unfold mbind, result_bind in Hloop.
    destruct (perm_step _ _ _ _ _ _ _ _) as [s1|] eqn:Hstep;
      [|discriminate Hloop].
    apply Forall_cons in Hcols as [Hcol Hcols].
    apply perm_step_inv in Hstep as (Hst & imp & M & Hi & Hm & Hres);
      [|exact Hcol|exact HX].
    apply IH in Hloop as (Hst' & imps & Ms & Hi' & Hm' & Hall);
      [|exact Hcols|now rewrite Hst].
    split; [now rewrite Hst', Hst|].
    exists (imp :: imps), (M :: Ms).
    rewrite Hi', Hi, Hm', Hm, <- !app_assoc.
    repeat split. now constructor.
Qed.

(** The loop runs to its end when the metric returns on every input. *)
Lemma perm_loop_total cols : forall s,
  (forall p, exists v, metric y_test p = Ok v) ->
  Forall (fun col => col < nd_cols X) cols ->
  ps_store s !! X_test_copy = Some X ->
  exists s',
    perm_loop model metric np_random_shuffle X_test_copy y_test
      baseline_score s cols = Ok s'.
Proof using shuffle_permutes X_wf.
  induction cols as [|col cols IH]; intros s Hmetric Hcols HX; simpl.
  - now exists s.
  - apply Forall_cons in Hcols as [Hcol Hcols].
    assert (exists s1,
              perm_step model metric np_random_shuffle X_test_copy y_test
                baseline_score s col = Ok s1) as [s1 Hstep].
    { unfold perm_step. rewrite HX. simpl.
      destruct (np_random_shuffle _ _) as [g shuffled].
      rewrite lookup_insert_eq. simpl.
      destruct (Hmetric (model (set_col col shuffled (nd_rows X))))
        as [v ->]. simpl. eexists. reflexivity. }
    rewrite Hstep. simpl.
    apply perm_step_inv in Hstep as (Hst & _); [|exact Hcol|exact HX].
    apply IH; [exact Hmetric|exact Hcols|now rewrite Hst].
Qed.
End permutation_importance_facts.

Section permutation_importance_frame.
Context {rng : Type}.
Variable model : list tensor -> tensor.
Variable metric : tensor -> tensor -> result float.
Variable np_random_shuffle : rng -> tensor -> rng * tensor.

(** The loop writes to the copy only. *)
Lemma perm_step_frame X_test_copy y_test baseline_score
    (s s' : perm_state) col :
  perm_step model metric np_random_shuffle X_test_copy y_test
    baseline_score s col = Ok s' ->
  forall l, l <> X_test_copy -> ps_store s' !! l = ps_store s !! l.
Proof.
  unfold perm_step. intros Hstep l Hl. unfold mbind, result_bind in Hstep.
  destruct (of_option NameError (ps_store s !! X_test_copy)) as [a|];
    [|discriminate Hstep].
  destruct (np_random_shuffle _ _) as [g shuffled].
  destruct (of_option NameError _) as [a1|]; [|discriminate Hstep].
  destruct (metric y_test _) as [score|]; [|discriminate Hstep].
  injection Hstep as <-. simpl.
  rewrite !lookup_insert_ne by congruence. reflexivity.
Qed.

Lemma perm_loop_frame X_test_copy y_test baseline_score cols :
  forall s s' : perm_state,
  perm_loop model metric np_random_shuffle X_test_copy y_test
    baseline_score s cols = Ok s' ->
  forall l, l <> X_test_copy -> ps_store s' !! l = ps_store s !! l.
Proof.
  induction cols as [|col cols IH]; intros s s' Hloop l Hl;
    simpl in Hloop.
  - now injection Hloop as <-.
  - unfold mbind, result_bind in Hloop.
    destruct (perm_step _ _ _ _ _ _ _ _) as [s1|] eqn:Hstep;
      [|discriminate Hloop].
    rewrite (IH _ _ Hloop l Hl). eapply perm_step_frame; eauto.
Qed.
End permutation_importance_frame.

Lemma fresh_loc_ne (h : store) (l : loc) (a : ndarray) :
  h !! l = Some a -> l <> fresh (dom h).
Proof.
  intros Hl ->. apply (is_fresh (dom h)).
  apply elem_of_dom. now exists a.
Qed.



(** C5.  When [permutation_importance] returns, the array the caller
    passed as [X_test] holds exactly the values it held before the call,
    and so does every other array of the caller: the function writes to
    its own copy only. *)
Theorem permutation_importance_preserves_input {rng : Type}
    (model : list tensor -> tensor)
    (metric : tensor -> tensor -> result float)
    (np_random_shuffle : rng -> tensor -> rng * tensor)
    (h : store) (g : rng) (X_test : loc) (y_test : tensor) (s : perm_state) :
  permutation_importance model metric np_random_shuffle h g X_test y_test
    = Ok s ->
  (exists X, h !! X_test = Some X /\ ps_store s !! X_test = Some X) /\
  (forall l a, h !! l = Some a -> ps_store s !! l = Some a).
Proof.
  intros Hrun. unfold permutation_importance in Hrun.
  unfold mbind, result_bind in Hrun.
  destruct (h !! X_test) as [X|] eqn:HX; [|discriminate Hrun].
  simpl in Hrun.
  destruct (of_option NameError _) as [X'|]; [|discriminate Hrun].
  destruct (metric y_test _) as [b|]; [|discriminate Hrun].
  destruct (of_option NameError _) as [c|]; [|discriminate Hrun].
  assert (Hframe : forall l a, h !! l = Some a -> ps_store s !! l = Some a).
  { intros l a Hl.
    rewrite (perm_loop_frame _ _ _ _ _ _ _ _ _ Hrun l)
      by (eapply fresh_loc_ne; eauto).
    simpl. rewrite lookup_insert_ne; [exact Hl|].
    intros Heq. symmetry in Heq. revert Heq. eapply fresh_loc_ne; eauto. }
  split; [|exact Hframe].
  exists X. split; [reflexivity|]. now apply Hframe.
Qed.

Lemma permutation_importance_preserves_input_witness :
  exists s,
    permutation_importance row_sum_model mse_metric reversing_shuffle
      sample_store 0 1%positive [Fin 11; Fin 22; Fin 33] = Ok s /\
    ps_store s !! 1%positive = Some sample_matrix.
Proof.
  destruct (permutation_importance row_sum_model mse_metric reversing_shuffle
              sample_store 0 1%positive [Fin 11; Fin 22; Fin 33])
    as [s|e] eqn:E.
  - exists s. split; [reflexivity|].
    destruct (permutation_importance_preserves_input _ _ _ _ _ _ _ _ E)
      as [_ Hframe].
    apply Hframe. reflexivity.
  - vm_compute in E. discriminate E.
Defined.

(** ** Distribution overlap *)

Lemma count_if_ext (p q : float -> bool) (a : tensor) :
  (forall x, x ∈ a -> p x = q x) -> count_if p a = count_if q a.
Proof.
  unfold count_if. intros Hpq. f_equal.
  induction a as [|x a IH]; [reflexivity|].
  rewrite !filter_cons.
  rewrite (Hpq x) by apply list_elem_of_here.
  assert (IH' : length (filter (fun x => p x = true) a)
                = length (filter (fun x => q x = true) a)).
  { apply IH. intros y Hy. apply Hpq. now apply list_elem_of_further. }
  destruct (decide (q x = true)); simpl; now rewrite IH'.
Qed.

(** The cumulative counts of a list of edges that ends with [e]. *)
Lemma cumulative_counts_snoc (a : tensor) (es : list Q) (e : Q) :
  cumulative_counts a (es ++ [e])
  = map (fun e' => count_if (fun x => flt x (Fin e')) a) es
    ++ [count_if (fun x => fle x (Fin e)) a].
Proof.
  induction es as [|e1 es IH]; [reflexivity|].
  simpl. rewrite <- IH. destruct es; reflexivity.
Qed.

Lemma Zdiff_constant (c : Z) (n : nat) :
  Zdiff (replicate (S n) c) = replicate n 0%Z.
Proof.
  induction n as [|n IH]; [reflexivity|].
  change (Zdiff (replicate (S (S n)) c))
    with ((c - c)%Z :: Zdiff (replicate (S n) c)).
  rewrite IH, Z.sub_diag. reflexivity.
Qed.

Lemma Zsum_zeros (n : nat) : Zsum (replicate n 0%Z) = 0%Z.
Proof.
  unfold Zsum. induction n as [|n IH]; [reflexivity|]. simpl. exact IH.
Qed.

Lemma Qdiff_length (l : list Q) : length (Qdiff l) = pred (length l).
Proof.
  destruct l as [|x l]; [reflexivity|]. simpl pred.
  revert x; induction l as [|y l IH]; intros x; [reflexivity|].
  change (Qdiff (x :: y :: l)) with ((y - x)%Q :: Qdiff (y :: l)).
  cbn [length]. f_equal. apply IH.
Qed.

Lemma Zdiff_length (l : list Z) : length (Zdiff l) = pred (length l).
Proof.
  destruct l as [|x l]; [reflexivity|]. simpl pred.
  revert x; induction l as [|y l IH]; intros x; [reflexivity|].
  change (Zdiff (x :: y :: l)) with ((y - x)%Z :: Zdiff (y :: l)).
  cbn [length]. f_equal. apply IH.
Qed.

Lemma cumulative_counts_length (a : tensor) (edges : list Q) :
  length (cumulative_counts a edges) = length edges.
Proof.
  destruct edges as [|e edges]; [reflexivity|].
  revert e; induction edges as [|e' edges IH]; intros e; [reflexivity|].
  change (cumulative_counts a (e :: e' :: edges))
    with (count_if (fun x => flt x (Fin e)) a
            :: cumulative_counts a (e' :: edges)).
  cbn [length]. f_equal. apply IH.
Qed.

Lemma histogram_density_length (a : tensor) (edges : list Q) :
  length (histogram_density a edges) = pred (length edges).
Proof.
  unfold histogram_density.
  rewrite length_zip_with, Zdiff_length, Qdiff_length,
    cumulative_counts_length. lia.
Qed.

Lemma linspace_length (start stop : Q) (num : nat) :
  length (linspace start stop num) = S num.
Proof.
  unfold linspace. rewrite length_app, length_map, length_seq. simpl. lia.
Qed.

(** A sum with a [nan] term is [nan]. *)
Lemma fold_fadd_nan (t : tensor) : fold_left fadd t NaN = NaN.
Proof. induction t as [|x t IH]; [reflexivity|]. simpl. exact IH. Qed.

Lemma fsum_nan (t : tensor) : NaN ∈ t -> fsum t = NaN.
Proof.
  unfold fsum. generalize (Fin 0). induction t as [|x t IH]; intros acc Hin.
  - apply elem_of_nil in Hin as [].
  - apply elem_of_cons in Hin as [<-|Hin]; simpl.
    + replace (fadd acc NaN) with NaN by now destruct acc.
      apply fold_fadd_nan.
    + now apply IH.
Qed.

(** An empty histogram has no density: [0 / 0] in every bin. *)
Lemma density_of_nothing (w : Q) :
  fdiv (fdiv (of_Z 0) (Fin w)) (of_Z 0) = NaN.
Proof.
  unfold of_Z. simpl. destruct (Qeq_bool w 0); reflexivity.
Qed.

Lemma Qlist_min_le (x : Q) (l : list Q) : (Qlist_min x l <= x)%Q.
Proof.
  unfold Qlist_min. revert x; induction l as [|y l IH]; intros x; simpl.
  - apply Qle_refl.
  - eapply Qle_trans; [apply IH|]. apply Q.le_min_l.
Qed.

Lemma Qlist_max_ge (x : Q) (l : list Q) : (x <= Qlist_max x l)%Q.
Proof.
  unfold Qlist_max. revert x; induction l as [|y l IH]; intros x; simpl.
  - apply Qle_refl.
  - eapply Qle_trans; [|apply IH]. apply Q.le_max_l.
Qed.

(** The range of an automatic histogram is never empty. *)
Lemma outer_edges_lt (a : tensor) (first_edge last_edge : Q) :
  outer_edges a = Ok (first_edge, last_edge) -> (first_edge < last_edge)%Q.
Proof.
  unfold outer_edges. destruct (finite_values a) as [[|q qs]|];
    [| |discriminate].
  - intros H. injection H as <- <-. reflexivity.
  - pose proof (Qlist_min_le q qs) as Hmin.
    pose proof (Qlist_max_ge q qs) as Hmax.
    destruct (Qeq_bool _ _) eqn:Heq; intros H; injection H as <- <-.
    + apply Qeq_bool_iff in Heq. lra.
    + apply Qeq_bool_neq in Heq.
      destruct (Qle_lt_or_eq (Qlist_min q qs) (Qlist_max q qs)) as [Hlt|He];
        [lra|exact Hlt|contradiction].
Qed.

(** Every computed edge lies between the first and the last one. *)
Lemma linspace_edge_bounds (start stop : Q) (num i : nat) :
  (start <= stop)%Q -> i < num ->
  let e := (inject_Z (Z.of_nat i)
            * ((stop - start) / inject_Z (Z.of_nat num)) + start)%Q in
  (start <= e)%Q /\ (e <= stop)%Q.
Proof.
  intros Hle Hi e. subst e.
  set (k := inject_Z (Z.of_nat i)). set (n := inject_Z (Z.of_nat num)).
  assert (Hk : (0 <= k)%Q).
  { unfold k, Qle. simpl. lia. }
  assert (Hkn : (k <= n)%Q).
  { unfold k, n, Qle. simpl. lia. }
  assert (Hn : (0 < n)%Q).
  { unfold n, Qlt. simpl. lia. }
  set (s := ((stop - start) / n)%Q).
  assert (Hs : (0 <= s)%Q).
  { unfold s. apply Qle_shift_div_l; [exact Hn|lra]. }
  assert (Hns : (n * s == stop - start)%Q).
  { unfold s. field. lra. }
  pose proof (Qmult_le_0_compat k s Hk Hs) as H0.
  pose proof (Qmult_le_compat_r k n s Hkn Hs) as H1.
  split; lra.
Qed.

Lemma fle_Fin (a b : Q) : (a <= b)%Q -> fle (Fin a) (Fin b) = true.
Proof. intros H. simpl. now apply Qleb_le. Qed.

(** A value outside the range is on the same side of every edge. *)
Lemma outside_range_edge (first_edge last_edge e : Q) (x : float) :
  (first_edge <= e)%Q -> (e <= last_edge)%Q ->
  outside_range first_edge last_edge x ->
  flt x (Fin e) = flt x (Fin first_edge) /\
  fle x (Fin last_edge) = flt x (Fin first_edge).
Proof.
  intros Hfe Hel [Hlt|Hgt].
  - rewrite Hlt. split.
    + eapply flt_fle_trans; [exact Hlt|now apply fle_Fin].
    + apply flt_fle. eapply flt_fle_trans; [exact Hlt|].
      apply fle_Fin. lra.
  - rewrite Hgt.
    assert (Hfalse : forall e', (e' <= last_edge)%Q -> flt x (Fin e') = false).
    { intros e' He'. destruct (flt x (Fin e')) eqn:Hlt; [|reflexivity].
      rewrite (flt_fle _ _ (flt_fle_trans _ _ _ Hlt (fle_Fin _ _ He'))) in Hgt.
      discriminate Hgt. }
    rewrite !Hfalse by lra. split; reflexivity.
Qed.

Lemma map_constant {A B} (f : A -> B) (c : B) (l : list A) :
  (forall x, x ∈ l -> f x = c) -> map f l = replicate (length l) c.
Proof.
  induction l as [|x l IH]; intros H; [reflexivity|]. simpl.
  rewrite (H x) by apply list_elem_of_here. f_equal.
  apply IH. intros y Hy. apply H. now apply list_elem_of_further.
Qed.

Lemma replicate_snoc {A} (c : A) (n : nat) :
  replicate n c ++ [c] = replicate (S n) c.
Proof. induction n as [|n IH]; [reflexivity|]. simpl. now rewrite IH. Qed.

(** When no value of the array lies in the range, every cumulative count
    is the number of values below the range. *)
Lemma cumulative_counts_outside (a : tensor) (first_edge last_edge : Q)
    (num : nat) :
  (first_edge <= last_edge)%Q ->
  Forall (outside_range first_edge last_edge) a ->
  cumulative_counts a (linspace first_edge last_edge num)
  = replicate (S num) (count_if (fun x => flt x (Fin first_edge)) a).
Proof.
  intros Hle Hout. rewrite Forall_forall in Hout.
  unfold linspace. rewrite cumulative_counts_snoc, map_map.
  rewrite (map_constant _ (count_if (fun x => flt x (Fin first_edge)) a)).
  - rewrite length_seq.
    rewrite (count_if_ext (fun x => fle x (Fin last_edge))
               (fun x => flt x (Fin first_edge))).
    + apply replicate_snoc.
    + intros x Hx.
      apply (outside_range_edge first_edge last_edge first_edge x);
        [lra|exact Hle|now apply Hout].
  - intros i Hi. apply elem_of_seq in Hi. apply count_if_ext.
    intros x Hx.
    destruct (linspace_edge_bounds first_edge last_edge num i Hle)
      as [H1 H2]; [lia|].
    now apply (outside_range_edge first_edge last_edge _ x H1 H2), Hout.
Qed.

(** Then the density histogram is [nan] in every bin. *)
Lemma histogram_density_outside (a : tensor) (first_edge last_edge : Q)
    (num : nat) :
  (first_edge <= last_edge)%Q ->
  Forall (outside_range first_edge last_edge) a ->
  histogram_density a (linspace first_edge last_edge num)
  = replicate num NaN.
Proof.
  intros Hle Hout. unfold histogram_density.
  rewrite (cumulative_counts_outside _ _ _ _ Hle Hout), Zdiff_constant,
    Zsum_zeros.
  assert (Hlen : length (Qdiff (linspace first_edge last_edge num)) = num).
  { now rewrite Qdiff_length, linspace_length. }
  revert Hlen. generalize (Qdiff (linspace first_edge last_edge num)).
  induction num as [|n IH]; intros [|w ws] Hlen; try discriminate Hlen;
    [reflexivity|].
  cbn [zip_with replicate]. rewrite density_of_nothing. f_equal.
  apply IH. now injection Hlen.
Qed.

(** For every pair of samples with disjoint ranges the value returned is
    [nan]: when no predicted value lies between the smallest and the
    largest actual value, the histogram of the predictions is empty and
    its density is [0 / 0]. *)
Lemma plot_distribution_disjoint (y_test y_test_pred : tensor)
    (first_edge last_edge : Q) :
  outer_edges y_test = Ok (first_edge, last_edge) ->
  Forall (outside_range first_edge last_edge) y_test_pred ->
  plot_distribution y_test y_test_pred = Ok NaN.
Proof.
  intros Hedges Hout.
  unfold plot_distribution, histogram_auto, mbind, result_bind.
  rewrite Hedges. cbn beta iota zeta.
  assert (Hle : (first_edge <= last_edge)%Q).
  { apply Qlt_le_weak. eapply outer_edges_lt, Hedges. }
  rewrite (histogram_density_outside _ _ _ 30 Hle Hout).
  pose proof (histogram_density_length y_test
                (linspace first_edge last_edge 30)) as Hha.
  pose proof (Qdiff_length (linspace first_edge last_edge 30)) as Hws.
  rewrite linspace_length in Hha, Hws. cbn [pred] in Hha, Hws.
  destruct (histogram_density y_test _) as [|a0 ha]; [discriminate Hha|].
  destruct (Qdiff _) as [|w0 ws]; [discriminate Hws|].
  f_equal. apply fsum_nan. cbn [replicate zip_with map].
  replace (fminimum a0 NaN) with NaN by (unfold fminimum; now destruct a0).
  apply list_elem_of_here.
Qed.

(** C7, evaluated on two samples with disjoint ranges, the actual values
    0 and 1 and the predicted values 2 and 3: the overlap returned is
    [nan], not 0. *)
Theorem plot_distribution_disjoint_is_nan :
  plot_distribution [Fin 0; Fin 1] [Fin 2; Fin 3] = Ok NaN.
Proof. vm_compute. reflexivity. Qed.

(** *** Sums and finite values *)

Lemma fold_fadd_Fin (qs : list Q) (acc : Q) :
  fold_left fadd (map Fin qs) (Fin acc) = Fin (fold_left Qplus qs acc).
Proof.
  revert acc; induction qs as [|q qs IH]; intros acc; [reflexivity|].
  simpl. apply IH.
Qed.

Lemma fsum_Fin (qs : list Q) : fsum (map Fin qs) = Fin (Qsum qs).
Proof. apply fold_fadd_Fin. Qed.

Lemma fminimum_Fin (a b : Q) : fminimum (Fin a) (Fin b) = Fin (Qminimum a b).
Proof. unfold fminimum, Qminimum. simpl. now destruct (Qltb b a). Qed.

Lemma overlap_terms_Fin (qa qp ws : list Q) :
  zip_with fmul (zip_with fminimum (map Fin qa) (map Fin qp)) (map Fin ws)
  = map Fin (zip_with Qmult (zip_with Qminimum qa qp) ws).
Proof.
  revert qp ws; induction qa as [|a qa IH]; intros [|b qp] [|w ws];
    try reflexivity.
  cbn [map zip_with]. rewrite fminimum_Fin. cbn [fmul]. f_equal. apply IH.
Qed.

Lemma fold_Qplus_shift (l : list Q) (acc : Q) :
  (fold_left Qplus l acc == acc + Qsum l)%Q.
Proof.
  unfold Qsum. revert acc; induction l as [|x l IH]; intros acc; simpl.
  - lra.
  - rewrite (IH (acc + x)%Q), (IH (0 + x)%Q). lra.
Qed.

Lemma fold_Zadd_shift (l : list Z) (acc : Z) :
  fold_left Z.add l acc = (acc + Zsum l)%Z.
Proof.
  unfold Zsum. revert acc; induction l as [|x l IH]; intros acc; simpl.
  - lia.
  - rewrite (IH (acc + x)%Z), (IH (0 + x)%Z). lia.
Qed.

Lemma Zsum_cons (x : Z) (l : list Z) : Zsum (x :: l) = (x + Zsum l)%Z.
Proof. unfold Zsum at 1. simpl. apply fold_Zadd_shift. Qed.

Lemma Qsum_cons (x : Q) (l : list Q) : (Qsum (x :: l) == x + Qsum l)%Q.
Proof. unfold Qsum at 1. simpl. rewrite fold_Qplus_shift. lra. Qed.

Lemma Zlast_cons (x y : Z) (l : list Z) : Zlast x (y :: l) = Zlast y l.
Proof.
  unfold Zlast. revert x y; induction l as [|z l IH]; intros x y;
    [reflexivity|].
  change (List.last (y :: z :: l) x) with (List.last (z :: l) x).
  rewrite (IH x z), (IH y z). reflexivity.
Qed.

(** The bin counts add up to the last cumulative count minus the first. *)
Lemma Zsum_Zdiff (l : list Z) : forall x,
  Zsum (Zdiff (x :: l)) = (Zlast x l - x)%Z.
Proof.
  induction l as [|y l IH]; intros x.
  - unfold Zlast, Zsum. simpl. lia.
  - change (Zdiff (x :: y :: l)) with ((y - x)%Z :: Zdiff (y :: l)).
    rewrite Zsum_cons, IH, Zlast_cons. lia.
Qed.

Lemma Zdiff_adjacent (l : list Z) :
  Zdiff l = zip_with (fun a b => (b - a)%Z) l (tail l).
Proof.
  destruct l as [|x l]; [reflexivity|].
  revert x; induction l as [|y l IH]; intros x; [reflexivity|].
  change (Zdiff (x :: y :: l)) with ((y - x)%Z :: Zdiff (y :: l)).
  rewrite IH. reflexivity.
Qed.

Lemma Qdiff_adjacent (l : list Q) :
  Qdiff l = zip_with (fun a b => (b - a)%Q) l (tail l).
Proof.
  destruct l as [|x l]; [reflexivity|].
  revert x; induction l as [|y l IH]; intros x; [reflexivity|].
  change (Qdiff (x :: y :: l)) with ((y - x)%Q :: Qdiff (y :: l)).
  rewrite IH. reflexivity.
Qed.

(** A property of every pair of neighbours holds of every difference. *)
Lemma Forall_adjacent {A B} (f : A -> A -> B) (P : B -> Prop) (l : list A) :
  (forall i a b, l !! i = Some a -> l !! S i = Some b -> P (f a b)) ->
  Forall P (zip_with f l (tail l)).
Proof.
  intros H. apply Forall_lookup. intros i x Hx.
  apply lookup_zip_with_Some in Hx as (a & b & -> & Ha & Hb).
  rewrite lookup_tail in Hb. now apply (H i).
Qed.

(** *** The overlap as a sum of rationals *)

Lemma Qminimum_le_l (a b : Q) : (Qminimum a b <= a)%Q.
Proof.
  unfold Qminimum. destruct (Qltb b a) eqn:H.
  - apply Qltb_lt in H. lra.
  - lra.
Qed.

Lemma Qminimum_nonneg (a b : Q) : (0 <= a -> 0 <= b -> 0 <= Qminimum a b)%Q.
Proof. unfold Qminimum. now destruct (Qltb b a). Qed.

Lemma Qminimum_same (a : Q) : Qminimum a a = a.
Proof. unfold Qminimum. now destruct (Qltb a a). Qed.

Lemma inject_Z_pos (z : Z) : (0 < z)%Z -> (0 < inject_Z z)%Q.
Proof. intros H. unfold Qlt. simpl. lia. Qed.

Lemma inject_Z_nonneg (z : Z) : (0 <= z)%Z -> (0 <= inject_Z z)%Q.
Proof. intros H. unfold Qle. simpl. lia. Qed.

Lemma bin_density_nonneg (total c : Z) (w : Q) :
  (0 < total)%Z -> (0 <= c)%Z -> (0 < w)%Q -> (0 <= bin_density total c w)%Q.
Proof.
  intros Ht Hc Hw. unfold bin_density.
  apply Qle_shift_div_l; [now apply inject_Z_pos|].
  apply Qle_shift_div_l; [exact Hw|].
  pose proof (inject_Z_nonneg c Hc). lra.
Qed.

(** Density times width is the share of the values that fall in the bin. *)
Lemma bin_density_area (total c : Z) (w : Q) :
  (0 < total)%Z -> (0 < w)%Q ->
  (bin_density total c w * w == inject_Z c / inject_Z total)%Q.
Proof.
  intros Ht Hw. unfold bin_density.
  pose proof (inject_Z_pos total Ht). field. split; lra.
Qed.

(** The sum of [min (density, density') * width] over the bins lies
    between 0 and the share of the first histogram's values, which is the
    value of the sum when both histograms are the same. *)
Lemma overlap_Qsum_bounds (total total' : Z) (ws : list Q) :
  forall n n' : list Z,
  (0 < total)%Z -> (0 < total')%Z ->
  length n = length ws -> length n' = length ws ->
  Forall (fun w => 0 < w)%Q ws ->
  Forall (fun c => 0 <= c)%Z n -> Forall (fun c => 0 <= c)%Z n' ->
  let overlap :=
    Qsum (zip_with Qmult
            (zip_with Qminimum (zip_with (bin_density total) n ws)
               (zip_with (bin_density total') n' ws)) ws) in
  (0 <= overlap)%Q /\
  (overlap <= inject_Z (Zsum n) / inject_Z total)%Q.
Proof.
  intros n n' Ht Ht'. pose proof (inject_Z_pos total Ht) as HT.
  revert n n'. induction ws as [|w ws IH];
    intros [|c n] [|c' n'] Hn Hn' Hws Hc Hc'; try discriminate.
  - unfold Qsum, Zsum. simpl. split; [lra|].
    apply Qle_shift_div_l; [exact HT|]. unfold inject_Z. lra.
  - apply Forall_cons in Hws as [Hw Hws].
    apply Forall_cons in Hc as [Hc0 Hc].
    apply Forall_cons in Hc' as [Hc0' Hc'].
    destruct (IH n n') as [IH0 IH1];
      [now injection Hn|now injection Hn'|assumption..|].
    cbn [zip_with]. cbv zeta. rewrite Qsum_cons, Zsum_cons.
    pose proof (bin_density_nonneg total c w Ht Hc0 Hw) as Ha.
    pose proof (bin_density_nonneg total' c' w Ht' Hc0' Hw) as Hb.
    pose proof (Qminimum_le_l (bin_density total c w)
                  (bin_density total' c' w)) as Hle.
    pose proof (Qminimum_nonneg _ _ Ha Hb) as Hge.
    pose proof (bin_density_area total c w Ht Hw) as Harea.
    set (m := Qminimum (bin_density total c w) (bin_density total' c' w))
      in *.
    assert (Hm0 : (0 <= m * w)%Q) by (apply Qmult_le_0_compat; lra).
    assert (Hm1 : (m * w <= bin_density total c w * w)%Q).
    { apply Qmult_le_compat_r; lra. }
    rewrite inject_Z_plus.
    assert (Hsplit : ((inject_Z c + inject_Z (Zsum n)) / inject_Z total
                      == inject_Z c / inject_Z total
                         + inject_Z (Zsum n) / inject_Z total)%Q).
    { field. lra. }
    rewrite Hsplit. split; lra.
Qed.

Lemma overlap_Qsum_same (total : Z) (ws : list Q) :
  forall n : list Z,
  (0 < total)%Z -> length n = length ws ->
  Forall (fun w => 0 < w)%Q ws ->
  (Qsum (zip_with Qmult
           (zip_with Qminimum (zip_with (bin_density total) n ws)
              (zip_with (bin_density total) n ws)) ws)
   == inject_Z (Zsum n) / inject_Z total)%Q.
Proof.
  intros n Ht. pose proof (inject_Z_pos total Ht) as HT.
  revert n. induction ws as [|w ws IH]; intros [|c n] Hn Hws;
    try discriminate.
  - unfold Qsum, Zsum. simpl. field. lra.
  - apply Forall_cons in Hws as [Hw Hws].
    cbn [zip_with]. rewrite Qsum_cons, Zsum_cons, Qminimum_same.
    rewrite IH by (try assumption; now injection Hn).
    rewrite (bin_density_area total c w Ht Hw), inject_Z_plus.
    field. lra.
Qed.

(** *** The edges and the counts *)

Lemma snoc_lookup {A} (h : nat -> A) (c : A) (num i : nat) (v : A) :
  (map h (seq 0 num) ++ [c]) !! i = Some v ->
  (i < num /\ v = h i) \/ (i = num /\ v = c).
Proof.
  intros H. apply lookup_app_Some in H as [H|[Hge H]].
  - left. rewrite list_lookup_fmap in H.
    destruct (seq 0 num !! i) as [j|] eqn:Hj; [|discriminate H].
    apply lookup_seq in Hj as [-> Hlt]. simpl in H.
    injection H as <-. split; [exact Hlt|reflexivity].
  - right. rewrite length_map, length_seq in Hge, H.
    apply list_lookup_singleton_Some in H as [Hi <-]. split; [lia|reflexivity].
Qed.

Lemma linspace_points (start stop : Q) (num : nat) :
  linspace start stop num
  = map (linspace_point start stop num) (seq 0 num) ++ [stop].
Proof. reflexivity. Qed.

Lemma linspace_point_next (start stop : Q) (num i : nat) :
  (linspace_point start stop num (S i)
   == linspace_point start stop num i
      + (stop - start) / inject_Z (Z.of_nat num))%Q.
Proof.
  unfold linspace_point. rewrite Nat2Z.inj_succ. unfold Z.succ.
  rewrite inject_Z_plus. ring.
Qed.

Lemma linspace_point_last (start stop : Q) (num : nat) :
  0 < num -> (linspace_point start stop num num == stop)%Q.
Proof.
  intros Hn. unfold linspace_point.
  assert (H : (0 < inject_Z (Z.of_nat num))%Q) by (apply inject_Z_pos; lia).
  field. lra.
Qed.

Lemma linspace_point_first (start stop : Q) (num : nat) :
  (linspace_point start stop num 0 == start)%Q.
Proof. unfold linspace_point. simpl. ring. Qed.

Lemma linspace_step_pos (start stop : Q) (num : nat) :
  (start < stop)%Q -> 0 < num ->
  (0 < (stop - start) / inject_Z (Z.of_nat num))%Q.
Proof.
  intros Hlt Hn. apply Qlt_shift_div_l; [apply inject_Z_pos; lia|lra].
Qed.

(** Two neighbouring edges are one step apart. *)
Lemma linspace_neighbours (start stop : Q) (num i : nat) (a b : Q) :
  0 < num ->
  linspace start stop num !! i = Some a ->
  linspace start stop num !! S i = Some b ->
  (b - a == (stop - start) / inject_Z (Z.of_nat num))%Q /\
  a = linspace_point start stop num i /\ i < num.
Proof.
  intros Hn Ha Hb. rewrite linspace_points in Ha, Hb.
  apply snoc_lookup in Ha as [[Hi ->]|[-> ->]];
    apply snoc_lookup in Hb as [[Hi' ->]|[Hi' ->]]; try lia.
  - split; [|split; [reflexivity|exact Hi]].
    rewrite linspace_point_next. ring.
  - split; [|split; [reflexivity|exact Hi]].
    rewrite <- (linspace_point_last start stop num Hn) at 1.
    rewrite <- Hi', linspace_point_next. ring.
Qed.

(** Every bin has a positive width. *)
Lemma linspace_widths_pos (start stop : Q) (num : nat) :
  (start < stop)%Q -> 0 < num ->
  Forall (fun w => 0 < w)%Q (Qdiff (linspace start stop num)).
Proof.
  intros Hlt Hn. rewrite Qdiff_adjacent. apply Forall_adjacent.
  intros i a b Ha Hb.
  destruct (linspace_neighbours _ _ _ _ _ _ Hn Ha Hb) as [-> _].
  now apply linspace_step_pos.
Qed.

Lemma count_if_mono (p q : float -> bool) (a : tensor) :
  (forall x, x ∈ a -> p x = true -> q x = true) ->
  (count_if p a <= count_if q a)%Z.
Proof.
  unfold count_if. intros Hpq. apply inj_le.
  induction a as [|x a IH]; [reflexivity|].
  rewrite !filter_cons.
  assert (IH' : length (filter (fun x => p x = true) a)
                <= length (filter (fun x => q x = true) a)).
  { apply IH. intros y Hy. apply Hpq. now apply list_elem_of_further. }
  destruct (decide (p x = true)) as [Hp|Hp].
  - rewrite decide_True by (apply Hpq; [apply list_elem_of_here|exact Hp]).
    simpl. lia.
  - destruct (decide (q x = true)); simpl; lia.
Qed.

Lemma count_if_nonneg (p : float -> bool) (a : tensor) :
  (0 <= count_if p a)%Z.
Proof. unfold count_if. lia. Qed.

Lemma count_if_none (p : float -> bool) (a : tensor) :
  (forall x, x ∈ a -> p x = false) -> count_if p a = 0%Z.
Proof.
  unfold count_if. intros H.
  induction a as [|x a IH]; [reflexivity|].
  rewrite filter_cons, decide_False.
  - apply IH. intros y Hy. apply H. now apply list_elem_of_further.
  - rewrite (H x) by apply list_elem_of_here. discriminate.
Qed.

Lemma count_if_all (p : float -> bool) (a : tensor) :
  (forall x, x ∈ a -> p x = true) -> count_if p a = Z.of_nat (length a).
Proof.
  unfold count_if. intros H. f_equal.
  induction a as [|x a IH]; [reflexivity|].
  rewrite filter_cons, decide_True by (apply H, list_elem_of_here).
  simpl. f_equal. apply IH. intros y Hy. apply H.
  now apply list_elem_of_further.
Qed.

(** One more value satisfies [q] than [p] when [q] is the weaker test and
    some value tells them apart. *)
Lemma count_if_lt (p q : float -> bool) (a : tensor) (x0 : float) :
  (forall x, x ∈ a -> p x = true -> q x = true) ->
  x0 ∈ a -> p x0 = false -> q x0 = true ->
  (count_if p a < count_if q a)%Z.
Proof.
  intros Hpq Hin Hp Hq.
  apply list_elem_of_split in Hin as (a1 & a2 & ->).
  assert (H1 : (count_if p a1 <= count_if q a1)%Z).
  { apply count_if_mono. intros x Hx. apply Hpq.
    apply elem_of_app. now left. }
  assert (H2 : (count_if p a2 <= count_if q a2)%Z).
  { apply count_if_mono. intros x Hx. apply Hpq.
    apply elem_of_app. right. now apply list_elem_of_further. }
  unfold count_if in *. rewrite !filter_app, !filter_cons, !length_app.
  rewrite decide_False by (rewrite Hp; discriminate).
  rewrite decide_True by exact Hq. simpl. lia.
Qed.

Lemma flt_Qeq (x : float) (q q' : Q) :
  (q == q')%Q -> flt x (Fin q) = flt x (Fin q').
Proof.
  intros Hq. destruct x as [| |a|]; simpl; try reflexivity.
  destruct (Qltb a q) eqn:H1, (Qltb a q') eqn:H2; try reflexivity.
  - apply Qltb_lt in H1. apply Qltb_nlt in H2. lra.
  - apply Qltb_nlt in H1. apply Qltb_lt in H2. lra.
Qed.

Lemma cumulative_counts_linspace (a : tensor) (start stop : Q) (num : nat) :
  cumulative_counts a (linspace start stop num)
  = map (fun i => count_if
                    (fun x => flt x (Fin (linspace_point start stop num i))) a)
      (seq 0 num)
    ++ [count_if (fun x => fle x (Fin stop)) a].
Proof.
  rewrite linspace_points, cumulative_counts_snoc, map_map. reflexivity.
Qed.

(** No bin has a negative count. *)
Lemma bin_counts_nonneg (a : tensor) (start stop : Q) (num : nat) :
  (start <= stop)%Q ->
  Forall (fun c => 0 <= c)%Z
    (Zdiff (cumulative_counts a (linspace start stop num))).
Proof.
  intros Hle. rewrite Zdiff_adjacent. apply Forall_adjacent.
  intros i c c' Hc Hc'. rewrite cumulative_counts_linspace in Hc, Hc'.
  apply snoc_lookup in Hc as [[Hi ->]|[-> ->]];
    apply snoc_lookup in Hc' as [[Hi' ->]|[Hi' ->]]; try lia.
  - assert (Hnum : 0 < num) by lia.
    enough (count_if
              (fun x => flt x (Fin (linspace_point start stop num i))) a
            <= count_if
                 (fun x => flt x (Fin (linspace_point start stop num (S i)))) a)%Z
      by lia.
    apply count_if_mono. intros x _ Hx.
    eapply flt_fle_trans; [exact Hx|]. apply fle_Fin.
    rewrite linspace_point_next.
    assert (0 <= (stop - start) / inject_Z (Z.of_nat num))%Q.
    { apply Qle_shift_div_l; [apply inject_Z_pos; lia|lra]. }
    lra.
  - enough (count_if
              (fun x => flt x (Fin (linspace_point start stop num i))) a
            <= count_if (fun x => fle x (Fin stop)) a)%Z by lia.
    apply count_if_mono. intros x _ Hx. apply flt_fle.
    eapply flt_fle_trans; [exact Hx|]. apply fle_Fin.
    now apply (linspace_edge_bounds start stop num i).
Qed.

(** The counts add up to the number of values in the range. *)
Lemma bin_counts_total (a : tensor) (start stop : Q) (num : nat) :
  0 < num ->
  Zsum (Zdiff (cumulative_counts a (linspace start stop num)))
  = (count_if (fun x => fle x (Fin stop)) a
     - count_if (fun x => flt x (Fin start)) a)%Z.
Proof.
  intros Hn. rewrite cumulative_counts_linspace.
  destruct num as [|k]; [lia|].
  change (seq 0 (S k)) with (0 :: seq 1 k). cbn [map app].
  rewrite Zsum_Zdiff. unfold Zlast. rewrite last_last. f_equal.
  apply count_if_ext. intros x _. apply flt_Qeq, linspace_point_first.
Qed.

Lemma bin_counts_length (a : tensor) (start stop : Q) (num : nat) :
  length (Zdiff (cumulative_counts a (linspace start stop num))) = num.
Proof.
  now rewrite Zdiff_length, cumulative_counts_length, linspace_length.
Qed.

Lemma finite_values_map (a : tensor) (qs : list Q) :
  finite_values a = Some qs -> a = map Fin qs.
Proof.
  unfold finite_values. intros H. apply mapM_Some in H.
  induction H as [|x q a qs Hx _ IH]; [reflexivity|].
  simpl. rewrite <- IH. destruct x; try discriminate Hx.
  now injection Hx as ->.
Qed.

Lemma Qlist_min_le_elem (x0 : Q) (l : list Q) (x : Q) :
  x ∈ l -> (Qlist_min x0 l <= x)%Q.
Proof.
  unfold Qlist_min. revert x0; induction l as [|y l IH]; intros x0 Hx.
  - apply elem_of_nil in Hx as [].
  - apply elem_of_cons in Hx as [->|Hx]; simpl.
    + eapply Qle_trans; [apply (Qlist_min_le (Qmin x0 y) l)|].
      apply Q.le_min_r.
    + now apply IH.
Qed.

Lemma Qlist_max_ge_elem (x0 : Q) (l : list Q) (x : Q) :
  x ∈ l -> (x <= Qlist_max x0 l)%Q.
Proof.
  unfold Qlist_max. revert x0; induction l as [|y l IH]; intros x0 Hx.
  - apply elem_of_nil in Hx as [].
  - apply elem_of_cons in Hx as [->|Hx]; simpl.
    + eapply Qle_trans; [|apply (Qlist_max_ge (Qmax x0 y) l)].
      apply Q.le_max_r.
    + now apply IH.
Qed.

Lemma inside_range_Fin (first_edge last_edge x : Q) :
  (first_edge <= x)%Q -> (x <= last_edge)%Q ->
  inside_range first_edge last_edge (Fin x).
Proof.
  intros H1 H2. split; simpl; [now apply Qltb_nlt|now apply Qleb_le].
Qed.

(** Every value of the sample lies in the range numpy chooses for it. *)
Lemma outer_edges_inside (a : tensor) (first_edge last_edge : Q) :
  outer_edges a = Ok (first_edge, last_edge) ->
  forall x, x ∈ a -> inside_range first_edge last_edge x.
Proof.
  unfold outer_edges. destruct (finite_values a) as [qs|] eqn:Hfin;
    [|discriminate].
  apply finite_values_map in Hfin as ->.
  destruct qs as [|q qs].
  - intros _ x Hx. apply elem_of_nil in Hx as [].
  - intros H x Hx. apply list_elem_of_fmap in Hx as (y & -> & Hy).
    assert (Hmin : (Qlist_min q qs <= y)%Q).
    { apply elem_of_cons in Hy as [->|Hy];
        [apply Qlist_min_le|now apply Qlist_min_le_elem]. }
    assert (Hmax : (y <= Qlist_max q qs)%Q).
    { apply elem_of_cons in Hy as [->|Hy];
        [apply Qlist_max_ge|now apply Qlist_max_ge_elem]. }
    destruct (Qeq_bool _ _); injection H as <- <-;
      apply inside_range_Fin; lra.
Qed.

(** With values in the range, the histogram is a list of finite
    densities. *)
Lemma densities_finite (total : Z) (ws : list Q) : forall n : list Z,
  (0 < total)%Z -> Forall (fun w => 0 < w)%Q ws ->
  zip_with (fun (c : Z) (w : Q) =>
              fdiv (fdiv (of_Z c) (Fin w)) (of_Z total)) n ws
  = map Fin (zip_with (bin_density total) n ws).
Proof.
  intros n Ht. pose proof (inject_Z_pos total Ht) as HT.
  revert n; induction ws as [|w ws IH]; intros [|c n] Hws;
    try reflexivity.
  apply Forall_cons in Hws as [Hw Hws]. cbn [zip_with map].
  rewrite IH by exact Hws. f_equal.
  assert (E1 : Qeq_bool w 0 = false).
  { destruct (Qeq_bool w 0) eqn:E; [|reflexivity].
    apply Qeq_bool_iff in E. lra. }
  assert (E2 : Qeq_bool (inject_Z total) 0 = false).
  { destruct (Qeq_bool (inject_Z total) 0) eqn:E; [|reflexivity].
    apply Qeq_bool_iff in E. lra. }
  unfold of_Z, bin_density. cbn [fdiv]. rewrite E1. cbn [fdiv].
  rewrite E2. reflexivity.
Qed.

Lemma histogram_density_finite (a : tensor) (start stop : Q) (num : nat) :
  (start < stop)%Q -> 0 < num ->
  (exists x, x ∈ a /\ inside_range start stop x) ->
  let n := Zdiff (cumulative_counts a (linspace start stop num)) in
  (0 < Zsum n)%Z /\
  histogram_density a (linspace start stop num)
  = map Fin (zip_with (bin_density (Zsum n)) n
               (Qdiff (linspace start stop num))).
Proof.
  intros Hlt Hn (x0 & Hin & Hlo & Hhi) n.
  assert (Hpos : (0 < Zsum n)%Z).
  { unfold n. rewrite bin_counts_total by exact Hn.
    enough (count_if (fun x => flt x (Fin start)) a
            < count_if (fun x => fle x (Fin stop)) a)%Z by lia.
    apply (count_if_lt _ _ a x0); [|exact Hin|exact Hlo|exact Hhi].
    intros x _ Hx. apply flt_fle. eapply flt_fle_trans; [exact Hx|].
    apply fle_Fin. lra. }
  split; [exact Hpos|].
  unfold histogram_density. fold n. apply densities_finite; [exact Hpos|].
  now apply linspace_widths_pos.
Qed.

(** The overlap is a number between 0 and 1 whenever the actual sample is
    not empty and at least one predicted value lies between its smallest
    and its largest value. *)
Lemma plot_distribution_bounds (y_test y_test_pred : tensor)
    (first_edge last_edge : Q) :
  outer_edges y_test = Ok (first_edge, last_edge) ->
  y_test <> [] ->
  (exists x, x ∈ y_test_pred /\ inside_range first_edge last_edge x) ->
  exists q,
    plot_distribution y_test y_test_pred = Ok (Fin q) /\
    (0 <= q)%Q /\ (q <= 1)%Q.
Proof.
  intros Hedges Hne Hpred.
  pose proof (outer_edges_lt _ _ _ Hedges) as Hlt.
  assert (Hact : exists x, x ∈ y_test /\ inside_range first_edge last_edge x).
  { destruct y_test as [|x y]; [congruence|]. exists x.
    split; [apply list_elem_of_here|].
    apply (outer_edges_inside _ _ _ Hedges), list_elem_of_here. }
  destruct (histogram_density_finite y_test first_edge last_edge 30 Hlt
              ltac:(lia) Hact) as [Hs Hha].
  destruct (histogram_density_finite y_test_pred first_edge last_edge 30 Hlt
              ltac:(lia) Hpred) as [Hs' Hhp].
  unfold plot_distribution, histogram_auto, mbind, result_bind.
  rewrite Hedges. cbn beta iota zeta.
  rewrite Hha, Hhp, overlap_terms_Fin, fsum_Fin.
  eexists. split; [reflexivity|].
  set (n := Zdiff (cumulative_counts y_test
                     (linspace first_edge last_edge 30))) in *.
  set (n' := Zdiff (cumulative_counts y_test_pred
                      (linspace first_edge last_edge 30))) in *.
  set (ws := Qdiff (linspace first_edge last_edge 30)).
  assert (Hws : length ws = 30)
    by (unfold ws; now rewrite Qdiff_length, linspace_length).
  destruct (overlap_Qsum_bounds (Zsum n) (Zsum n') ws n n' Hs Hs')
    as [H0 H1].
  - unfold n. now rewrite bin_counts_length.
  - unfold n'. now rewrite bin_counts_length.
  - apply linspace_widths_pos; [exact Hlt|lia].
  - apply bin_counts_nonneg. lra.
  - apply bin_counts_nonneg. lra.
  - split; [exact H0|].
    eapply Qle_trans; [exact H1|].
    pose proof (inject_Z_pos _ Hs) as HS.
    apply Qle_shift_div_r; [exact HS|]. lra.
Qed.

(** The overlap of a non-empty sample with itself is 1. *)
Lemma plot_distribution_identical (y_test : tensor)
    (first_edge last_edge : Q) :
  outer_edges y_test = Ok (first_edge, last_edge) ->
  y_test <> [] ->
  exists q, plot_distribution y_test y_test = Ok (Fin q) /\ (q == 1)%Q.
Proof.
  intros Hedges Hne.
  pose proof (outer_edges_lt _ _ _ Hedges) as Hlt.
  assert (Hact : exists x, x ∈ y_test /\ inside_range first_edge last_edge x).
  { destruct y_test as [|x y]; [congruence|]. exists x.
    split; [apply list_elem_of_here|].
    apply (outer_edges_inside _ _ _ Hedges), list_elem_of_here. }
  destruct (histogram_density_finite y_test first_edge last_edge 30 Hlt
              ltac:(lia) Hact) as [Hs Hha].
  unfold plot_distribution, histogram_auto, mbind, result_bind.
  rewrite Hedges. cbn beta iota zeta.
  rewrite Hha, overlap_terms_Fin, fsum_Fin.
  eexists. split; [reflexivity|].
  rewrite overlap_Qsum_same.
  - pose proof (inject_Z_pos _ Hs) as HS. field. lra.
  - exact Hs.
  - now rewrite bin_counts_length, Qdiff_length, linspace_length.
  - apply linspace_widths_pos; [exact Hlt|lia].
Qed.
